(** * Keystore and transfer orchestration of the Solana keypair manager

    A shallow embedding of [src/App.js]: the keypair records kept in React
    state, the balance refresh, the faucet request, the transfer pipeline
    and the backup import, followed by the properties of the design
    document that concern them.

    JavaScript numbers are IEEE 754 binary64 values and are modelled by the
    kernel's primitive floats; the calls into [@solana/web3.js], [bs58] and
    the RPC connection are recorded in a trace, so that "no network call is
    made" is a statement about that trace. *)

From Stdlib Require Import ZArith String Ascii List Bool Lia DecimalString.
From Stdlib Require Import PrimFloat SpecFloat FloatOps FloatAxioms.
From Stdlib.Strings Require Import Byte.
From Stdlib Require Import DecimalPos DecimalZ.
Import ListNotations.

Set Warnings "-inexact-float".

Open Scope string_scope.
Open Scope list_scope.

(* ===================================================================== *)
(** * JavaScript values and built-ins used by the component *)
(* ===================================================================== *)

(** A thrown [Error]: only its [message] is ever read by the source. *)
Record JsError := mkError { message : string }.

(** The result of a call that may throw. *)
Inductive Result (A : Type) : Type :=
| Ok (a : A)
| Err (e : JsError).
Arguments Ok {A} a.
Arguments Err {A} e.

Module Number.

Open Scope Z_scope.

(** The binary64 value nearest to [num / den] (ties to even), for positive
    [num] and [den]: the quotient is taken with at least 64 significant
    bits and the remainder is handed to the rounding as a location. *)
Definition round_ratio (neg : bool) (num den : Z) : float :=
  let k := Z.max 0 (64 + Z.log2 den - Z.log2 num) in
  let (q, r) := Z.div_eucl (num * 2 ^ k) den in
  let loc := if r =? 0 then loc_Exact else loc_Inexact (Z.compare (2 * r) den) in
  SF2Prim (binary_round_aux prec emax neg q (- k) loc).

(** The Number value of the decimal [m * 10^e10] with sign [neg]. Far
    beyond the range of binary64 (the magnitude of [m] is bounded through
    its binary logarithm) the answer is known without the power of ten. *)
Definition of_decimal (neg : bool) (m e10 : Z) : float :=
  if m =? 0 then (if neg then neg_zero else zero)
  else if 400 <? e10 + Z.log2 m / 4 then (if neg then neg_infinity else infinity)
  else if e10 + Z.log2 m / 3 + 1 <? -400 then (if neg then neg_zero else zero)
  else if 0 <=? e10 then round_ratio neg (m * 10 ^ e10) 1
  else round_ratio neg m (10 ^ (- e10)).

Definition is_digit (c : ascii) : bool :=
  let n := nat_of_ascii c in (48 <=? n)%nat && (n <=? 57)%nat.

Definition digit_val (c : ascii) : Z := Z.of_nat (nat_of_ascii c) - 48.

(** Reads the longest run of decimal digits: its value continued from
    [acc], the number of digits read, and the rest of the text. *)
Fixpoint read_digits (acc n : Z) (s : string) : Z * Z * string :=
  match s with
  | String c r =>
      if is_digit c then read_digits (acc * 10 + digit_val c) (n + 1) r
      else (acc, n, s)
  | EmptyString => (acc, n, s)
  end.

(** StrWhiteSpaceChar, within one-byte characters: TAB, LF, VT, FF, CR,
    SP and NBSP. *)
Definition is_space (c : ascii) : bool :=
  let n := nat_of_ascii c in
  ((9 <=? n)%nat && (n <=? 13)%nat) || (n =? 32)%nat || (n =? 160)%nat.

Fixpoint trim_start (s : string) : string :=
  match s with
  | String c r => if is_space c then trim_start r else s
  | EmptyString => s
  end.

(** An ExponentPart at the head of [s], when there is one: [e] or [E], an
    optional sign, and at least one digit. *)
Definition read_exponent (s : string) : Z :=
  match s with
  | String c r =>
      if (Ascii.eqb c "e" || Ascii.eqb c "E")%char then
        let '(eneg, r') :=
          match r with
          | String "-"%char r' => (true, r')
          | String "+"%char r' => (false, r')
          | _ => (false, r)
          end in
        let '(e, n, _) := read_digits 0 0 r' in
        if n =? 0 then 0 else if eneg then - e else e
      else 0
  | EmptyString => 0
  end.

(** [parseFloat(string)]: leading white space is dropped, then the
    longest prefix that is a StrDecimalLiteral is read; [NaN] when there
    is none. *)
Definition parseFloat (text : string) : float :=
  let s := trim_start text in
  let '(neg, s) :=
    match s with
    | String "-"%char r => (true, r)
    | String "+"%char r => (false, r)
    | _ => (false, s)
    end in
  if String.prefix "Infinity" s then (if neg then neg_infinity else infinity)
  else
    let '(ip, ni, s1) := read_digits 0 0 s in
    let '(m, nf, s2) :=
      match s1 with
      | String "."%char r => read_digits ip 0 r
      | _ => (ip, 0, s1)
      end in
    if ni + nf =? 0 then nan
    else of_decimal neg m (read_exponent s2 - nf).

(** [isNaN] on a Number. *)
Definition isNaN (x : float) : bool := is_nan x.

(** [Number.prototype.toString] on an integer below 10^21 in magnitude:
    its decimal digits, with a minus sign when negative. *)
Definition toString (z : Z) : string := NilZero.string_of_int (Z.to_int z).

(** [parseFloat(x)] on a Number [x]: the text of [x] reads back as [x],
    except that [-0] prints as ["0"]. *)
Definition parseFloat_number (x : float) : float :=
  if (x =? zero)%float then zero else x.

End Number.

Arguments Number.parseFloat : simpl never.
Arguments Number.toString : simpl never.

(* ===================================================================== *)
(** * The [bs58] codec and the address syntax of [@solana/web3.js] *)
(* ===================================================================== *)

Module Base58.

Open Scope Z_scope.

Definition ALPHABET : string :=
  "123456789ABCDEFGHJKLMNPQRSTUVWXYZabcdefghijkmnopqrstuvwxyz".

Fixpoint index_of (c : ascii) (s : string) (i : Z) : option Z :=
  match s with
  | String d r => if Ascii.eqb c d then Some i else index_of c r (i + 1)
  | EmptyString => None
  end.

Definition digit (c : ascii) : option Z := index_of c ALPHABET 0.

Definition byte_of_Z (z : Z) : byte := byte_of_ascii (ascii_of_N (Z.to_N z)).
Definition Z_of_byte (b : byte) : Z := Z.of_N (Byte.to_N b).

(** Leading ['1'] characters, each worth one zero byte. *)
Fixpoint leading_ones (s : string) : nat * string :=
  match s with
  | String "1"%char r => let '(n, t) := leading_ones r in (S n, t)
  | _ => (O, s)
  end.

(** The number written by [s] in base 58, or [None] at a character that
    is not of the alphabet. *)
Fixpoint value (acc : Z) (s : string) : option Z :=
  match s with
  | String c r =>
      match digit c with
      | Some d => value (acc * 58 + d) r
      | None => None
      end
  | EmptyString => Some acc
  end.

(** Big-endian bytes of [n] without leading zero bytes. *)
Fixpoint be_bytes (fuel : nat) (n : Z) (acc : list byte) : list byte :=
  match fuel with
  | O => acc
  | S fuel' =>
      if n <=? 0 then acc
      else be_bytes fuel' (n / 256) (byte_of_Z (n mod 256) :: acc)
  end.

Definition bytes_of_Z (n : Z) : list byte :=
  be_bytes (S (Z.to_nat (Z.log2 n))) n [].

(** [bs58.decode(text)]: throws at a character outside the alphabet. *)
Definition decode (text : string) : Result (list byte) :=
  let '(zeroes, rest) := leading_ones text in
  match value 0 rest with
  | Some n => Ok (repeat x00 zeroes ++ bytes_of_Z n)
  | None => Err (mkError "Non-base58 character")
  end.

Fixpoint leading_zeroes (bs : list byte) : nat * list byte :=
  match bs with
  | b :: r =>
      if Byte.eqb b x00 then let '(n, t) := leading_zeroes r in (S n, t)
      else (O, bs)
  | [] => (O, bs)
  end.

Definition Z_of_bytes (bs : list byte) : Z :=
  fold_left (fun acc b => acc * 256 + Z_of_byte b) bs 0.

Definition char_of_digit (d : Z) : ascii :=
  match String.get (Z.to_nat d) ALPHABET with
  | Some c => c
  | None => "1"%char
  end.

Fixpoint digits_of_Z (fuel : nat) (n : Z) (acc : string) : string :=
  match fuel with
  | O => acc
  | S fuel' =>
      if n <=? 0 then acc
      else digits_of_Z fuel' (n / 58) (String (char_of_digit (n mod 58)) acc)
  end.

Fixpoint ones (n : nat) : string :=
  match n with
  | O => EmptyString
  | S n' => String "1"%char (ones n')
  end.

(** [bs58.encode(bytes)]. *)
Definition encode (bs : list byte) : string :=
  let '(zeroes, rest) := leading_zeroes bs in
  let n := Z_of_bytes rest in
  ones zeroes ++ digits_of_Z (S (Z.to_nat (Z.log2 n))) n EmptyString.

End Base58.

Arguments Base58.decode : simpl never.
Arguments Base58.encode : simpl never.

(* ===================================================================== *)
(** * Data model *)
(* ===================================================================== *)

(** One element of the [addresses] array. The objects come from
    [createSolanaAddress] or, unchanged, from an imported JSON file, so a
    field may be absent ([None] is JavaScript's [undefined]). Present fields
    have the types [createSolanaAddress] gives them: [id] is a [Date.now()]
    reading, an integer number of milliseconds. *)
Record KeypairRecord := mkRecord {
  id : option Z;
  publicKey : option string;
  privateKey : option string;
  showPrivate : option bool;
  balance : option float;
}.

(** The [transferData] form state. *)
Record TransferData := mkTransferData {
  fromId : string;
  toPubkey : string;
  amount : string;
}.

(** The React state of [App]. *)
Record Store := mkStore {
  addresses : list KeypairRecord;
  transferData : TransferData;
  faucetAmount : string;
}.

Record Keypair := mkKeypair {
  kp_publicKey : list byte;
  kp_secretKey : list byte;
}.

Record Transaction := mkTransaction {
  tx_fromPubkey : list byte;
  tx_toPubkey : list byte;
  tx_lamports : float;
  tx_feePayer : option (list byte);
  tx_recentBlockhash : option string;
}.

(** How a promise handed out by the connection ends: settled after [ms]
    milliseconds, fulfilled or rejected, or never settled. *)
Inductive Settlement (A : Type) : Type :=
| SettlesAt (ms : Z) (r : Result A)
| NeverSettles.
Arguments SettlesAt {A} ms r.
Arguments NeverSettles {A}.

(** What lies outside the component during one call of a handler: the
    clock, key generation and the elliptic-curve operations of
    [@solana/web3.js], and the answers of the RPC [connection]. The [err]
    field of a confirmation is kept as its JSON text, [None] for [null].
    Only the confirmation is given with the time it takes and the chance
    that it never settles. The four other calls to the ledger are given by
    the way they settle, so that a handler which awaits one of them without
    end has no run here: what is stated below of the end of a handler, or
    of the state it leaves, is stated of the runs in which these four
    settle. *)
Record World := mkWorld {
  Date_now : Z;
  Keypair_generate : Keypair;
  PublicKey_isOnCurve : list byte -> bool;
  Keypair_fromSecretKey : list byte -> Result Keypair;
  SystemProgram_transfer : list byte -> list byte -> float -> Result unit;
  Transaction_sign : Transaction -> Keypair -> Result (list byte);
  connection_getBalance : list byte -> Result float;
  connection_getLatestBlockhash : Result (string * Z);
  connection_sendRawTransaction : list byte -> Result string;
  connection_confirmTransaction : string -> Settlement (option string);
  connection_requestAirdrop : list byte -> float -> Result string;
}.

(** The calls a handler makes, in the order it makes them. *)
Inductive event : Type :=
| Alert (text : string)
| ConsoleError (text : string)
| NewPublicKey (text : option string)
| IsOnCurve (bytes : list byte)
| Bs58Decode (text : option string)
| KeypairFromSecretKey (secret : list byte)
| SystemProgramTransfer (source dest : list byte) (lamports : float)
| TransactionSign
| SetTimeout (ms : Z)
| GetBalance (address : list byte)
| GetLatestBlockhash
| SendRawTransaction (wire : list byte)
| ConfirmTransaction (signature : string)
| RequestAirdrop (address : list byte) (lamports : float).

(** The calls that go to the ledger through [connection]. *)
Definition is_ledger_call (e : event) : bool :=
  match e with
  | GetBalance _ | GetLatestBlockhash | SendRawTransaction _
  | ConfirmTransaction _ | RequestAirdrop _ _ => true
  | _ => false
  end.

(** The calls of stage 4 of a transfer: secret decoding, keypair
    derivation and transaction building. *)
Definition is_construction_call (e : event) : bool :=
  match e with
  | Bs58Decode _ | KeypairFromSecretKey _ | SystemProgramTransfer _ _ _
  | TransactionSign => true
  | _ => false
  end.

Definition no_ledger_call (tr : list event) : Prop :=
  forallb (fun e => negb (is_ledger_call e)) tr = true.

Definition no_construction_call (tr : list event) : Prop :=
  forallb (fun e => negb (is_construction_call e)) tr = true.

(* ===================================================================== *)
(** * Handlers as computations over the React state and the call trace *)
(* ===================================================================== *)

(** How a handler (or a part of one) ends: it returns, it throws, or it
    awaits a promise that never settles. *)
Inductive Outcome (A : Type) : Type :=
| Returned (a : A)
| Thrown (e : JsError)
| Unsettled.
Arguments Returned {A} a.
Arguments Thrown {A} e.
Arguments Unsettled {A}.

Record Run := mkRun {
  store : Store;
  trace : list event;
}.

Definition M (A : Type) : Type := Run -> Outcome A * Run.

Definition ret {A} (a : A) : M A := fun r => (Returned a, r).

Definition bind {A B} (c : M A) (k : A -> M B) : M B :=
  fun r =>
    match c r with
    | (Returned a, r') => k a r'
    | (Thrown e, r') => (Thrown e, r')
    | (Unsettled, r') => (Unsettled, r')
    end.

Declare Scope js_scope.
Delimit Scope js_scope with js.
Notation "x <- c ;; k" := (bind c (fun x => k))
  (at level 61, c at next level, right associativity) : js_scope.
Notation "c ;; k" := (bind c (fun _ => k))
  (at level 61, right associativity) : js_scope.
Open Scope js_scope.

Definition throw {A} (e : JsError) : M A := fun r => (Thrown e, r).

(** [try { body } catch (err) { handler }]. *)
Definition try_catch {A} (body : M A) (handler : JsError -> M A) : M A :=
  fun r =>
    match body r with
    | (Thrown e, r') => handler e r'
    | other => other
    end.

Definition emit (e : event) : M unit :=
  fun r => (Returned tt, mkRun (store r) (trace r ++ [e])).

(** A call that may throw, recorded in the trace. *)
Definition call {A} (e : event) (res : Result A) : M A :=
  emit e ;;
  match res with
  | Ok a => ret a
  | Err err => throw err
  end.

Definition alert (text : string) : M unit := emit (Alert text).

(** [setAddresses(value)] and [setAddresses(prev => ...)]: the second form
    reads the state current when it is applied, not the [addresses] the
    handler closed over. *)
Definition setAddresses_value (l : list KeypairRecord) : M unit :=
  fun r =>
    (Returned tt,
     mkRun (mkStore l (transferData (store r)) (faucetAmount (store r))) (trace r)).

Definition setAddresses (f : list KeypairRecord -> list KeypairRecord) : M unit :=
  fun r => setAddresses_value (f (addresses (store r))) r.

Definition setTransferData (td : TransferData) : M unit :=
  fun r =>
    (Returned tt,
     mkRun (mkStore (addresses (store r)) td (faucetAmount (store r))) (trace r)).

(** [await Promise.all(items.map(async ...))], the callbacks run one after
    another. When several of them await the ledger the real calls
    interleave; the results and their order are the same, the order of the
    recorded events is not. *)
Fixpoint mapM {A B} (f : A -> M B) (l : list A) : M (list B) :=
  match l with
  | [] => ret []
  | a :: rest => b <- f a ;; bs <- mapM f rest ;; ret (b :: bs)
  end.

(** [items.forEach(...)], left at the first throw. *)
Fixpoint forEach {A} (f : A -> M unit) (l : list A) : M unit :=
  match l with
  | [] => ret tt
  | a :: rest => f a ;; forEach f rest
  end.

(** A handler started on a state, with an empty trace. *)
Definition start (s : Store) : Run := mkRun s [].

(** ** Truthiness and equality of field values *)

Definition truthy_string (s : string) : bool := negb (String.eqb s "").

Definition truthy_text (v : option string) : bool :=
  match v with
  | Some s => truthy_string s
  | None => false
  end.

Definition truthy_id (v : option Z) : bool :=
  match v with
  | Some n => negb (Z.eqb n 0)
  | None => false
  end.

Definition truthy_flag (v : option bool) : bool :=
  match v with
  | Some b => b
  | None => false
  end.

(** [a === b] on ids. *)
Definition id_eqb (a b : option Z) : bool :=
  match a, b with
  | Some x, Some y => Z.eqb x y
  | None, None => true
  | _, _ => false
  end.

(** SameValueZero on public keys, as [Set.prototype.has] compares. *)
Definition text_eqb (a b : option string) : bool :=
  match a, b with
  | Some x, Some y => String.eqb x y
  | None, None => true
  | _, _ => false
  end.

(** [parseFloat(record.balance)]. *)
Definition parseFloat_balance (v : option float) : float :=
  match v with
  | Some x => Number.parseFloat_number x
  | None => nan
  end.

Definition LAMPORTS_PER_SOL : float := 1000000000%float.

(** [new PublicKey(text)]: the text is base58-decoded and must give exactly
    32 bytes; [undefined] makes the constructor throw a TypeError. The
    result is the key's bytes. *)
Definition PublicKey_of_text (v : option string) : Result (list byte) :=
  match v with
  | None => Err (mkError "Cannot read properties of undefined (reading '_bn')")
  | Some s =>
      match Base58.decode s with
      | Ok bytes =>
          if (length bytes =? 32)%nat then Ok bytes
          else Err (mkError "Invalid public key input")
      | Err e => Err e
      end
  end.

Definition new_PublicKey (v : option string) : M (list byte) :=
  call (NewPublicKey v) (PublicKey_of_text v).

(** [bs58.decode(value)]: [undefined] is not a string. *)
Definition bs58_decode_value (v : option string) : Result (list byte) :=
  match v with
  | None => Err (mkError "Expected String")
  | Some s => Base58.decode s
  end.

Definition bs58_decode (v : option string) : M (list byte) :=
  call (Bs58Decode v) (bs58_decode_value v).

(** [await promise]. *)
Definition await {A} (p : Settlement A) : M A :=
  fun r =>
    match p with
    | SettlesAt _ (Ok a) => (Returned a, r)
    | SettlesAt _ (Err e) => (Thrown e, r)
    | NeverSettles => (Unsettled, r)
    end.

(** [await Promise.race([promise, new Promise((_, reject) =>
    setTimeout(() => reject(error), ms))])]: the promise wins when it
    settles before the timer fires. *)
Definition Promise_race_timeout {A} (p : Settlement A) (ms : Z) (error : JsError) : M A :=
  emit (SetTimeout ms) ;;
  match p with
  | SettlesAt t (Ok a) => if (t <? ms)%Z then ret a else throw error
  | SettlesAt t (Err e) => if (t <? ms)%Z then throw e else throw error
  | NeverSettles => throw error
  end.

(** [addresses.find((item) => item.id.toString() === fromId)]: reading
    [toString] of an absent id throws. *)
Fixpoint find_by_id_text (l : list KeypairRecord) (text : string)
  : Result (option KeypairRecord) :=
  match l with
  | [] => Ok None
  | item :: rest =>
      match id item with
      | None => Err (mkError "Cannot read properties of undefined (reading 'toString')")
      | Some n =>
          if String.eqb (Number.toString n) text then Ok (Some item)
          else find_by_id_text rest text
      end
  end.

(** [new Set(keys)] and [set.has(key)]. *)
Definition Set_has (s : list (option string)) (k : option string) : bool :=
  existsb (text_eqb k) s.

Definition new_Set (keys : list (option string)) : list (option string) :=
  fold_left (fun s k => if Set_has s k then s else s ++ [k]) keys [].

(** [{ ...addr, balance }] and [{ ...addr, showPrivate }]. *)
Definition with_balance (addr : KeypairRecord) (b : float) : KeypairRecord :=
  mkRecord (id addr) (publicKey addr) (privateKey addr) (showPrivate addr) (Some b).

Definition with_showPrivate (addr : KeypairRecord) (b : bool) : KeypairRecord :=
  mkRecord (id addr) (publicKey addr) (privateKey addr) (Some b) (balance addr).

(** The parsed content of a backup file: [JSON.parse] throws, or gives a
    value that is not an array, or an array. An element of the array is
    read through its five fields, and an element that is a number, a text,
    a boolean or an array reads as the object without fields. Reading a
    field of [null] throws a TypeError instead, whose text depends on the
    engine: [ArrayWithNull before type_error] is an array whose first
    [null] comes after the elements [before]; what follows it is never
    read. *)
Inductive Payload : Type :=
| NotJson (syntax_error : string)
| NotArray
| ArrayOf (entries : list KeypairRecord)
| ArrayWithNull (before : list KeypairRecord) (type_error : string).

Section Handlers.

Variable W : World.

(** [createSolanaAddress], lines 42-57. *)
Definition createSolanaAddress : M unit :=
  let keypair := Keypair_generate W in
  let publicKey := Base58.encode (kp_publicKey keypair) in
  let secretKeyBase58 := Base58.encode (kp_secretKey keypair) in
  setAddresses (fun prev =>
    prev ++ [mkRecord (Some (Date_now W)) (Some publicKey) (Some secretKeyBase58)
                      (Some false) (Some zero)]).

(** [deleteAddress], lines 62-64. *)
Definition deleteAddress (id0 : option Z) : M unit :=
  setAddresses (fun prev => filter (fun addr => negb (id_eqb (id addr) id0)) prev).

(** [togglePrivateKey], lines 67-73. *)
Definition togglePrivateKey (id0 : option Z) : M unit :=
  setAddresses (fun prev =>
    map (fun addr =>
           if id_eqb (id addr) id0
           then with_showPrivate addr (negb (truthy_flag (showPrivate addr)))
           else addr) prev).

(** [getBalance], lines 79-88. *)
Definition getBalance (publicKeyString : option string) : M float :=
  try_catch
    (publicKey <- new_PublicKey publicKeyString ;;
     balance <- call (GetBalance publicKey) (connection_getBalance W publicKey) ;;
     ret balance)
    (fun err =>
       emit (ConsoleError ("Error getting balance: " ++ message err)) ;;
       ret zero).

(** [refreshBalance], lines 90-104; [addresses] is the array the handler
    closed over. *)
Definition refreshBalance (addresses : list KeypairRecord) (id0 : option Z) : M unit :=
  updatedAddresses <-
    mapM (fun addr =>
            if id_eqb (id addr) id0 then
              balanceLamports <- getBalance (publicKey addr) ;;
              ret (with_balance addr (balanceLamports / LAMPORTS_PER_SOL)%float)
            else ret addr)
         addresses ;;
  setAddresses_value updatedAddresses.

(** [requestAirdrop], lines 107-133. *)
Definition requestAirdrop (addresses : list KeypairRecord) (faucetAmount : string)
           (id0 : option Z) : M unit :=
  try_catch
    (match find (fun item => id_eqb (id item) id0) addresses with
     | None => ret tt
     | Some targetAddr =>
         publicKey <- new_PublicKey (publicKey targetAddr) ;;
         let requestedAmount := Number.parseFloat faucetAmount in
         if (2 <? requestedAmount)%float then
           alert "Maximum airdrop amount is 2 SOL on testnet"
         else
           let lamports := (requestedAmount * LAMPORTS_PER_SOL)%float in
           signature <- call (RequestAirdrop publicKey lamports)
                             (connection_requestAirdrop W publicKey lamports) ;;
           emit (ConfirmTransaction signature) ;;
           await (connection_confirmTransaction W signature) ;;
           alert ("Airdrop successful! Signature: " ++ signature) ;;
           refreshBalance addresses id0
     end)
    (fun err =>
       emit (ConsoleError ("Error in airdrop: " ++ message err)) ;;
       alert ("Airdrop failed! " ++ message err)).

(** Lines 176-187 of [transferSOL]: the destination key, or [None] when
    the handler returns from inside the block. *)
Definition validate_destination (toPubkey : string) : M (option (list byte)) :=
  try_catch
    (toPublicKey <- new_PublicKey (Some toPubkey) ;;
     emit (IsOnCurve toPublicKey) ;;
     if negb (PublicKey_isOnCurve W toPublicKey) then
       alert "Invalid destination address" ;; ret None
     else ret (Some toPublicKey))
    (fun _ => alert "Invalid destination address format" ;; ret None).

(** Lines 189-237 of [transferSOL]: construction, signing, submission,
    confirmation and the effects of success. *)
Definition submit_transfer (addresses : list KeypairRecord) (fromAddr : KeypairRecord)
           (toPublicKey : list byte) (transferAmount : float) : M unit :=
  secretKey <- bs58_decode (privateKey fromAddr) ;;
  fromKeypair <- call (KeypairFromSecretKey secretKey) (Keypair_fromSecretKey W secretKey) ;;
  let lamports := (transferAmount * LAMPORTS_PER_SOL)%float in
  call (SystemProgramTransfer (kp_publicKey fromKeypair) toPublicKey lamports)
       (SystemProgram_transfer W (kp_publicKey fromKeypair) toPublicKey lamports) ;;
  latest <- call GetLatestBlockhash (connection_getLatestBlockhash W) ;;
  let transaction :=
    mkTransaction (kp_publicKey fromKeypair) toPublicKey lamports
                  (Some (kp_publicKey fromKeypair)) (Some (fst latest)) in
  wire <- call TransactionSign (Transaction_sign W transaction fromKeypair) ;;
  signature <- call (SendRawTransaction wire) (connection_sendRawTransaction W wire) ;;
  emit (ConfirmTransaction signature) ;;
  confirmation <-
    Promise_race_timeout (connection_confirmTransaction W signature) 30000
                         (mkError "Transaction confirmation timeout") ;;
  match confirmation with
  | Some err => throw (mkError ("Transaction failed: " ++ err))
  | None =>
      alert ("Transfer successful! Transaction signature: " ++ signature) ;;
      refreshBalance addresses (id fromAddr) ;;
      setTransferData (mkTransferData "" "" "")
  end.

(** [transferSOL], lines 146-243; [addresses] and [transferData] are the
    values the handler closed over. *)
Definition transferSOL (addresses : list KeypairRecord) (transferData : TransferData)
  : M unit :=
  try_catch
    (let '(mkTransferData fromId toPubkey amount) := transferData in
     if negb (truthy_string fromId) || negb (truthy_string toPubkey)
        || negb (truthy_string amount) then
       alert "Please fill in all transfer details"
     else
       match find_by_id_text addresses fromId with
       | Err e => throw e
       | Ok None => alert "Invalid From address selection."
       | Ok (Some fromAddr) =>
           let transferAmount := Number.parseFloat amount in
           if Number.isNaN transferAmount || (transferAmount <=? 0)%float then
             alert "Please enter a valid positive amount"
           else
             let senderBalance := parseFloat_balance (balance fromAddr) in
             if (senderBalance <? transferAmount + 0.000005)%float then
               alert "Insufficient balance. Please ensure you have enough SOL for transfer and fees."
             else
               destination <- validate_destination toPubkey ;;
               match destination with
               | None => ret tt
               | Some toPublicKey =>
                   submit_transfer addresses fromAddr toPublicKey transferAmount
               end
       end)
    (fun err =>
       emit (ConsoleError ("Error transferring SOL: " ++ message err)) ;;
       alert ("Transfer failed: " ++ message err)).

(** The callback of [loadedAddresses.forEach], lines 282-301. *)
Definition validate_keypair (addr : KeypairRecord) : M unit :=
  if negb (truthy_text (publicKey addr)) || negb (truthy_text (privateKey addr))
     || negb (truthy_id (id addr)) then
    throw (mkError "Invalid keypair format")
  else
    try_catch (new_PublicKey (publicKey addr) ;; ret tt)
              (fun _ => throw (mkError "Invalid public key format")) ;;
    try_catch
      (decoded <- bs58_decode (privateKey addr) ;;
       if negb (length decoded =? 64)%nat then
         throw (mkError "Invalid private key length")
       else ret tt)
      (fun _ => throw (mkError "Invalid private key format")).

(** The updater of lines 304-308. *)
Definition merge_loaded (loadedAddresses prev : list KeypairRecord)
  : list KeypairRecord :=
  let existingPubKeys := new_Set (map publicKey prev) in
  let newAddresses :=
    filter (fun addr => negb (Set_has existingPubKeys (publicKey addr)))
           loadedAddresses in
  prev ++ newAddresses.

(** [reader.onload] of [loadKeypairs], lines 272-315, on the content of
    the chosen file. On an array with a [null] element the loop of lines
    282-301 validates the elements before it, and the read of line 283
    throws at it. *)
Definition loadKeypairs (payload : Payload) : M unit :=
  try_catch
    (match payload with
     | NotJson syntax_error => throw (mkError syntax_error)
     | NotArray => throw (mkError "Invalid file format: expected an array of keypairs")
     | ArrayOf loadedAddresses =>
         forEach validate_keypair loadedAddresses ;;
         setAddresses (merge_loaded loadedAddresses) ;;
         alert "Successfully loaded keypairs"
     | ArrayWithNull before type_error =>
         forEach validate_keypair before ;;
         throw (mkError type_error)
     end)
    (fun err =>
       emit (ConsoleError ("Error loading keypairs: " ++ message err)) ;;
       alert ("Failed to load keypairs: " ++ message err)).

End Handlers.

(* ===================================================================== *)
(** * Error kinds *)
(* ===================================================================== *)

(** The error kinds of the design document. The source reports every
    failure through [alert]; the kind is read off the text it shows. *)
Inductive ErrorKind : Type :=
| ValidationError
| InsufficientFundsError
| NetworkError
| LedgerRejectionError
| ConfirmationTimeoutError
| NotFoundError.

(** The kind of an error caught by the [catch] of [transferSOL], told by
    its message: the timer's rejection, the [throw] of line 226, or
    something else, which the source does not tell apart any further. *)
Definition error_kind_of_message (msg : string) : option ErrorKind :=
  if String.eqb msg "Transaction confirmation timeout" then Some ConfirmationTimeoutError
  else if String.prefix "Transaction failed: " msg then Some LedgerRejectionError
  else None.

(** The kind of failure an alert of [transferSOL] reports; [None] for the
    alert of success. Lines 151-167 are stage 1, lines 169-174 stage 2 and
    lines 176-187 stage 3 of the pipeline. *)
Definition error_kind_of_alert (text : string) : option ErrorKind :=
  if String.eqb text "Please fill in all transfer details" then Some ValidationError
  else if String.eqb text "Invalid From address selection." then Some ValidationError
  else if String.eqb text "Please enter a valid positive amount" then Some ValidationError
  else if String.eqb text
       "Insufficient balance. Please ensure you have enough SOL for transfer and fees."
    then Some InsufficientFundsError
  else if String.eqb text "Invalid destination address" then Some ValidationError
  else if String.eqb text "Invalid destination address format" then Some ValidationError
  else if String.prefix "Transfer failed: " text
    then error_kind_of_message (String.substring 17 (String.length text - 17) text)
  else None.

Definition stage1_alert (text : string) : Prop :=
  text = "Please fill in all transfer details"
  \/ text = "Invalid From address selection."
  \/ text = "Please enter a valid positive amount".

Definition stage3_alert (text : string) : Prop :=
  text = "Invalid destination address"
  \/ text = "Invalid destination address format".

Definition insufficient_alert : string :=
  "Insufficient balance. Please ensure you have enough SOL for transfer and fees.".

(* ===================================================================== *)
(** * The user's actions on the component *)
(* ===================================================================== *)

Inductive Action : Type :=
| ClickCreate
| ClickDelete (id0 : option Z)
| ClickToggle (id0 : option Z)
| ClickRefresh (id0 : option Z)
| ClickFund (id0 : option Z)
| ClickTransfer
| ChooseFile (payload : Payload)
| EditTransfer (td : TransferData)
| EditFaucet (text : string).

(** An action runs its handler with the values of the latest render. *)
Definition handle (W : World) (a : Action) : M unit :=
  fun r =>
    let s := store r in
    match a with
    | ClickCreate => createSolanaAddress W r
    | ClickDelete id0 => deleteAddress id0 r
    | ClickToggle id0 => togglePrivateKey id0 r
    | ClickRefresh id0 => refreshBalance W (addresses s) id0 r
    | ClickFund id0 => requestAirdrop W (addresses s) (faucetAmount s) id0 r
    | ClickTransfer => transferSOL W (addresses s) (transferData s) r
    | ChooseFile payload => loadKeypairs payload r
    | EditTransfer td => setTransferData td r
    | EditFaucet text =>
        (Returned tt, mkRun (mkStore (addresses s) (transferData s) text) (trace r))
    end.

Definition step (s : Store) (wa : World * Action) : Store :=
  store (snd (handle (fst wa) (snd wa) (start s))).

(** The state after a sequence of actions, each in its own world and each
    run to the end of its handler before the next one starts. *)
Definition run_actions (s : Store) (l : list (World * Action)) : Store :=
  fold_left step l s.

(** No two records share an id. *)
Definition unique_ids (l : list KeypairRecord) : Prop := NoDup (map id l).

(* ===================================================================== *)
(** * What the balance refresh does *)
(* ===================================================================== *)

(** The value [getBalance] returns and the calls it makes. *)
Definition looked_up (W : World) (pk : option string) : float :=
  match PublicKey_of_text pk with
  | Ok bytes =>
      match connection_getBalance W bytes with
      | Ok x => x
      | Err _ => zero
      end
  | Err _ => zero
  end.

Definition lookup_fails (W : World) (pk : option string) : bool :=
  match PublicKey_of_text pk with
  | Ok bytes =>
      match connection_getBalance W bytes with
      | Ok _ => false
      | Err _ => true
      end
  | Err _ => true
  end.

Definition getBalance_calls (W : World) (pk : option string) : list event :=
  match PublicKey_of_text pk with
  | Ok bytes =>
      match connection_getBalance W bytes with
      | Ok _ => [NewPublicKey pk; GetBalance bytes]
      | Err e => [NewPublicKey pk; GetBalance bytes;
                  ConsoleError ("Error getting balance: " ++ message e)]
      end
  | Err e => [NewPublicKey pk; ConsoleError ("Error getting balance: " ++ message e)]
  end.

Definition refreshed (W : World) (id0 : option Z) (addr : KeypairRecord) : KeypairRecord :=
  if id_eqb (id addr) id0
  then with_balance addr (looked_up W (publicKey addr) / LAMPORTS_PER_SOL)%float
  else addr.

Definition refresh_calls (W : World) (id0 : option Z) (l : list KeypairRecord) : list event :=
  flat_map (fun addr =>
              if id_eqb (id addr) id0 then getBalance_calls W (publicKey addr) else [])
           l.

(* ===================================================================== *)
(** * Worlds used in the worked scenarios *)
(* ===================================================================== *)

(** The keypair [Keypair.generate] hands out in the scenarios. *)
Definition sample_keypair : Keypair :=
  mkKeypair (repeat x01 32) (repeat x02 64).

(** A world in which the curve check passes, every library call succeeds
    and the ledger answers at once: each balance is 5 SOL and a
    confirmation arrives after [latency] milliseconds without error. *)
Definition responsive_world (now latency : Z) : World :=
  mkWorld now sample_keypair
          (fun _ => true)
          (fun secret => Ok (mkKeypair (skipn 32 secret) secret))
          (fun _ _ _ => Ok tt)
          (fun _ _ => Ok (repeat x03 64))
          (fun _ => Ok 5000000000%float)
          (Ok ("EETubP5AKHgjPAhzPAFcb8BAY1hMH639CWCFTqi3hq1k", 1000%Z))
          (fun _ => Ok "5VERv8NMvzbJMEkV8xnrLkEaWRtSz9CosKDYjCJjBRnb")
          (fun _ => SettlesAt latency (Ok None))
          (fun _ _ => Ok "5VERv8NMvzbJMEkV8xnrLkEaWRtSz9CosKDYjCJjBRnb").

(** The same world with the ledger unreachable. *)
Definition offline_world (now : Z) : World :=
  let failed {A} : Result A := Err (mkError "failed to fetch") in
  mkWorld now sample_keypair
          (fun _ => true)
          (fun secret => Ok (mkKeypair (skipn 32 secret) secret))
          (fun _ _ _ => Ok tt)
          (fun _ _ => Ok (repeat x03 64))
          (fun _ => failed)
          failed
          (fun _ => failed)
          (fun _ => NeverSettles)
          (fun _ _ => failed).

(** The same world with a confirmation that never arrives. *)
Definition silent_world (now : Z) : World :=
  mkWorld now sample_keypair
          (fun _ => true)
          (fun secret => Ok (mkKeypair (skipn 32 secret) secret))
          (fun _ _ _ => Ok tt)
          (fun _ _ => Ok (repeat x03 64))
          (fun _ => Ok 5000000000%float)
          (Ok ("EETubP5AKHgjPAhzPAFcb8BAY1hMH639CWCFTqi3hq1k", 1000%Z))
          (fun _ => Ok "5VERv8NMvzbJMEkV8xnrLkEaWRtSz9CosKDYjCJjBRnb")
          (fun _ => NeverSettles)
          (fun _ _ => Ok "5VERv8NMvzbJMEkV8xnrLkEaWRtSz9CosKDYjCJjBRnb").

(** The system program's address, and a base58 text of 64 bytes. *)
Definition address_A : string := "11111111111111111111111111111111".
Definition address_B : string := "11111111111111111111111111111112".
Definition secret_64 : string :=
  "1111111111111111111111111111111111111111111111111111111111111111".
Definition secret_63 : string :=
  "111111111111111111111111111111111111111111111111111111111111111".

Definition record_A (balance0 : float) : KeypairRecord :=
  mkRecord (Some 1700000000000%Z) (Some address_A) (Some secret_64)
           (Some false) (Some balance0).

Definition empty_form : TransferData := mkTransferData "" "" "".


(* ===================================================================== *)
(** * Properties of traces and requests *)
(* ===================================================================== *)

(** The texts shown by [alert], in order. *)
Fixpoint alerts (tr : list event) : list string :=
  match tr with
  | [] => []
  | Alert text :: rest => text :: alerts rest
  | _ :: rest => alerts rest
  end.

Definition is_transfer_build (e : event) : bool :=
  match e with
  | SystemProgramTransfer _ _ _ => true
  | _ => false
  end.

(** Every ledger call of the trace comes after a [SystemProgram.transfer]
    call, the last step of stage 4 ([built] tells whether one was seen). *)
Fixpoint ledger_after_build (built : bool) (tr : list event) : bool :=
  match tr with
  | [] => true
  | e :: rest =>
      if is_ledger_call e then built && ledger_after_build built rest
      else ledger_after_build (built || is_transfer_build e) rest
  end.

(** Stage 1 of a transfer passes: the three fields are filled in, the
    source record [fromAddr] is found, and the amount reads as a positive
    number. *)
Definition passes_presence (l : list KeypairRecord) (td : TransferData)
           (fromAddr : KeypairRecord) : Prop :=
  truthy_string (fromId td) = true
  /\ truthy_string (toPubkey td) = true
  /\ truthy_string (amount td) = true
  /\ find_by_id_text l (fromId td) = Ok (Some fromAddr)
  /\ Number.isNaN (Number.parseFloat (amount td)) = false
  /\ (Number.parseFloat (amount td) <=? 0)%float = false.

(** The amount is empty, does not read as a number, or is not positive. *)
Definition invalid_amount (text : string) : Prop :=
  text = ""
  \/ Number.isNaN (Number.parseFloat text) = true
  \/ (Number.parseFloat text <=? 0)%float = true.

(** The destination text is no address, or an address off the curve. *)
Definition invalid_destination (W : World) (text : string) : Prop :=
  match PublicKey_of_text (Some text) with
  | Err _ => True
  | Ok bytes => PublicKey_isOnCurve W bytes = false
  end.

(** The promise does not settle before the 30 second timer fires. *)
Definition late {A} (p : Settlement A) : Prop :=
  match p with
  | SettlesAt ms _ => (30000 <= ms)%Z
  | NeverSettles => True
  end.

Definition FEE_RESERVE : float := 0.000005%float.

Definition all_have_id (l : list KeypairRecord) : Prop :=
  Forall (fun addr => id addr <> None) l.

Definition is_confirm_call (e : event) : bool :=
  match e with
  | ConfirmTransaction _ => true
  | _ => false
  end.

Definition is_balance_lookup (e : event) : bool :=
  match e with
  | GetBalance _ => true
  | _ => false
  end.

(** The transfer got as far as asking for the confirmation (stage 7). *)
Definition reaches_confirmation (tr : list event) : Prop :=
  existsb is_confirm_call tr = true.

Definition timeout_alert : string :=
  "Transfer failed: Transaction confirmation timeout".

Definition cap_alert : string := "Maximum airdrop amount is 2 SOL on testnet".

(* ===================================================================== *)
(** * Import payloads, in the words of the design document *)
(* ===================================================================== *)

(** The three fields are present, as line 283 tests presence (an empty
    text and the id 0 count as absent). *)
Definition fields_present (addr : KeypairRecord) : bool :=
  truthy_text (publicKey addr) && truthy_text (privateKey addr) && truthy_id (id addr).

(** The public key passes address-syntax validation. *)
Definition address_syntax_ok (addr : KeypairRecord) : bool :=
  match PublicKey_of_text (publicKey addr) with
  | Ok _ => true
  | Err _ => false
  end.

(** The private key decodes to exactly 64 bytes. *)
Definition secret_length_ok (addr : KeypairRecord) : bool :=
  match bs58_decode_value (privateKey addr) with
  | Ok decoded => (length decoded =? 64)%nat
  | Err _ => false
  end.

Definition well_formed_entry (addr : KeypairRecord) : bool :=
  fields_present addr && address_syntax_ok addr && secret_length_ok addr.

Definition missing_field (addr : KeypairRecord) : Prop :=
  id addr = None \/ publicKey addr = None \/ privateKey addr = None.

Definition bad_address_syntax (addr : KeypairRecord) : Prop :=
  exists e, PublicKey_of_text (publicKey addr) = Err e.

Definition bad_secret_length (addr : KeypairRecord) : Prop :=
  forall decoded,
    bs58_decode_value (privateKey addr) = Ok decoded -> length decoded <> 64%nat.

(** The payload is not a sequence, or one of its entries is defective; a
    [null] entry has none of the fields. *)
Definition defective_payload (payload : Payload) : Prop :=
  match payload with
  | NotJson _ | NotArray | ArrayWithNull _ _ => True
  | ArrayOf entries =>
      exists addr,
        In addr entries
        /\ (missing_field addr \/ bad_address_syntax addr \/ bad_secret_length addr)
  end.

(** The merge as the design document words it: going through the entries
    in input order, an entry whose public key is already in the address
    book [prev] is skipped, any other is appended. *)
Inductive merge_spec (prev : list KeypairRecord)
  : list KeypairRecord -> list KeypairRecord -> Prop :=
| merge_done : merge_spec prev [] []
| merge_skip addr rest added :
    In (publicKey addr) (map publicKey prev) ->
    merge_spec prev rest added ->
    merge_spec prev (addr :: rest) added
| merge_append addr rest added :
    ~ In (publicKey addr) (map publicKey prev) ->
    merge_spec prev rest added ->
    merge_spec prev (addr :: rest) (addr :: added).

(** The private key of the record derives its public key. *)
Definition paired (W : World) (addr : KeypairRecord) : Prop :=
  exists address secret keypair,
    PublicKey_of_text (publicKey addr) = Ok address
    /\ bs58_decode_value (privateKey addr) = Ok secret
    /\ Keypair_fromSecretKey W secret = Ok keypair
    /\ kp_publicKey keypair = address.

Definition is_derivation_call (e : event) : bool :=
  match e with
  | KeypairFromSecretKey _ => true
  | _ => false
  end.

(** The calls and the verdict of [validate_keypair] on one entry. *)
Definition validation_calls (addr : KeypairRecord) : list event :=
  if fields_present addr then
    if address_syntax_ok addr
    then [NewPublicKey (publicKey addr); Bs58Decode (privateKey addr)]
    else [NewPublicKey (publicKey addr)]
  else [].

Definition validation_error (addr : KeypairRecord) : JsError :=
  if fields_present addr then
    if address_syntax_ok addr then mkError "Invalid private key format"
    else mkError "Invalid public key format"
  else mkError "Invalid keypair format".

(** The calls of the validation loop: up to the first defective entry. *)
Fixpoint loop_calls (entries : list KeypairRecord) : list event :=
  match entries with
  | [] => []
  | addr :: rest =>
      validation_calls addr
      ++ (if well_formed_entry addr then loop_calls rest else [])
  end.

Fixpoint first_defect (entries : list KeypairRecord) : option KeypairRecord :=
  match entries with
  | [] => None
  | addr :: rest => if well_formed_entry addr then first_defect rest else Some addr
  end.

(* ===================================================================== *)
(** * Sequences of actions that keep ids apart *)
(* ===================================================================== *)

Definition other_keypair : Keypair :=
  mkKeypair (repeat x04 32) (repeat x05 64).

(** The world [W] with another outcome of [Keypair.generate]. *)
Definition with_generated (W : World) (keypair : Keypair) : World :=
  mkWorld (Date_now W) keypair (PublicKey_isOnCurve W) (Keypair_fromSecretKey W)
          (SystemProgram_transfer W) (Transaction_sign W) (connection_getBalance W)
          (connection_getLatestBlockhash W) (connection_sendRawTransaction W)
          (connection_confirmTransaction W) (connection_requestAirdrop W).

(** The entries that the import of a file appends to the address book
    [s]: none when the file is rejected, and otherwise those whose public
    key the book does not hold (lines 304-308). *)
Definition appended_by_import (s : Store) (payload : Payload) : list KeypairRecord :=
  match payload with
  | ArrayOf loadedAddresses =>
      if forallb well_formed_entry loadedAddresses
      then filter (fun addr =>
                     negb (Set_has (new_Set (map publicKey (addresses s))) (publicKey addr)))
                  loadedAddresses
      else []
  | _ => []
  end.

(** The action brings no id that the address book [s] already holds: a
    creation happens at a clock reading that is no id of the book, and the
    entries an import appends have ids that differ from one another and
    from those of the book. The other actions bring no id. *)
Definition keeps_ids_apart (s : Store) (wa : World * Action) : Prop :=
  match snd wa with
  | ClickCreate => ~ In (Some (Date_now (fst wa))) (map id (addresses s))
  | ChooseFile payload =>
      NoDup (map id (appended_by_import s payload))
      /\ forall addr,
          In addr (appended_by_import s payload) ->
          ~ In (id addr) (map id (addresses s))
  | _ => True
  end.

Fixpoint admissible (s : Store) (l : list (World * Action)) : Prop :=
  match l with
  | [] => True
  | wa :: rest => keeps_ids_apart s wa /\ admissible (step s wa) rest
  end.

(* ===================================================================== *)
(** * Notions used for the further properties *)
(* ===================================================================== *)

(** A byte list without a leading zero byte. *)
Definition no_leading_zero (bs : list byte) : Prop :=
  match bs with
  | [] => True
  | b :: _ => b <> x00
  end.

(** The text starts with the character that stands for a zero byte. *)
Definition starts_with_one (s : string) : Prop :=
  match s with
  | String c _ => c = "1"%char
  | EmptyString => False
  end.

(** Whether the private key of the record is shown. *)
Definition shown (addr : KeypairRecord) : bool := truthy_flag (showPrivate addr).

(** The world [W] with other answers to [confirmTransaction]. *)
Definition with_confirmation (W : World)
           (answer : string -> Settlement (option string)) : World :=
  mkWorld (Date_now W) (Keypair_generate W) (PublicKey_isOnCurve W)
          (Keypair_fromSecretKey W) (SystemProgram_transfer W) (Transaction_sign W)
          (connection_getBalance W) (connection_getLatestBlockhash W)
          (connection_sendRawTransaction W) answer (connection_requestAirdrop W).

(** [JSON.stringify] on a text that needs no escape: the text between
    double quotes. *)
Definition json_string (s : string) : string :=
  String (ascii_of_nat 34) (s ++ String (ascii_of_nat 34) EmptyString).

(** The alerts of success of the faucet request and of the transfer. *)
Definition is_airdrop_success (text : string) : bool :=
  String.prefix "Airdrop successful! Signature: " text.

Definition is_transfer_success (text : string) : bool :=
  String.prefix "Transfer successful! Transaction signature: " text.

(** The calls of a transfer that go to the ledger before any refresh. *)
Definition submission_calls (tr : list event) : list event :=
  filter (fun e => is_ledger_call e && negb (is_balance_lookup e)) tr.

(** The [SystemProgram.transfer] calls of a trace: source, destination and
    lamports of each. *)
Definition transfer_builds (tr : list event) : list (list byte * list byte * float) :=
  flat_map (fun e =>
              match e with
              | SystemProgramTransfer source dest lamports => [(source, dest, lamports)]
              | _ => []
              end) tr.

(** The record has an id, a public key and a private key. *)
Definition has_key_fields (addr : KeypairRecord) : Prop :=
  id addr <> None /\ publicKey addr <> None /\ privateKey addr <> None.

(** [handleTransferChange], lines 141-144, for the input named [name] and
    its new text: [{ ...prev, [name]: value }]. A name other than those of
    the three inputs would add a property that no handler reads. *)
Definition handleTransferChange (name value : string) : M unit :=
  fun r =>
    let prev := transferData (store r) in
    setTransferData
      (if String.eqb name "fromId" then mkTransferData value (toPubkey prev) (amount prev)
       else if String.eqb name "toPubkey" then mkTransferData (fromId prev) value (amount prev)
       else if String.eqb name "amount" then mkTransferData (fromId prev) (toPubkey prev) value
       else prev)
      r.
(* ===================================================================== *)
(** * The built-ins on sample inputs *)
(* ===================================================================== *)

Example parseFloat_fraction : Number.parseFloat "0.02" = 0.02%float.
Proof. reflexivity. Qed.

Example parseFloat_prefix : Number.parseFloat "  12.5e1abc" = 125%float.
Proof. reflexivity. Qed.

Example parseFloat_dot : Number.parseFloat "." = nan.
Proof. reflexivity. Qed.

Example parseFloat_dangling_exponent : Number.parseFloat "-.5e+" = (-0.5)%float.
Proof. reflexivity. Qed.

Example parseFloat_empty : Number.parseFloat "" = nan.
Proof. reflexivity. Qed.

Example parseFloat_tie_to_even :
  Number.parseFloat "9007199254740993" = 9007199254740992%float.
Proof. reflexivity. Qed.

Example parseFloat_subnormal : Number.parseFloat "3e-324" = 5e-324%float.
Proof. reflexivity. Qed.

Example parseFloat_overflow : Number.parseFloat "1e309" = infinity.
Proof. reflexivity. Qed.

Example parseFloat_far_overflow : Number.parseFloat "-1e999999999" = neg_infinity.
Proof. reflexivity. Qed.

Example parseFloat_far_underflow : Number.parseFloat "7e-999999999" = zero.
Proof. reflexivity. Qed.

Example parseFloat_leading_zeros :
  Number.parseFloat "000000000000000000000000000000000000000001e-2" = 0.01%float.
Proof. reflexivity. Qed.

Example parseFloat_largest :
  Number.parseFloat "1.7976931348623157e308" = 1.7976931348623157e308%float.
Proof. reflexivity. Qed.

Example toString_timestamp : Number.toString 1700000000000 = "1700000000000".
Proof. reflexivity. Qed.

Example decode_system_program :
  Base58.decode "11111111111111111111111111111111" = Ok (repeat x00 32).
Proof. reflexivity. Qed.

Example decode_text :
  Base58.decode "2NEpo7TZRRrLZSi2U" =
  Ok (map Base58.byte_of_Z [72; 101; 108; 108; 111; 32; 87; 111; 114; 108; 100; 33]%Z).
Proof. reflexivity. Qed.

Example encode_text :
  Base58.encode (map Base58.byte_of_Z [0; 72; 101; 108; 108; 111; 32; 87; 111; 114; 108; 100; 33]%Z)
  = "12NEpo7TZRRrLZSi2U".
Proof. reflexivity. Qed.

Example decode_rejects_zero_letter :
  Base58.decode "0OIl" = Err (mkError "Non-base58 character").
Proof. reflexivity. Qed.

(* ===================================================================== *)
(** * Running the balance refresh *)
(* ===================================================================== *)

Lemma bind_run {A B} (c : M A) (k : A -> M B) (r : Run) :
  bind c k r
  = match c r with
    | (Returned a, r') => k a r'
    | (Thrown e, r') => (Thrown e, r')
    | (Unsettled, r') => (Unsettled, r')
    end.
Proof. reflexivity. Qed.

Lemma getBalance_run W pk r :
  getBalance W pk r
  = (Returned (looked_up W pk), mkRun (store r) (trace r ++ getBalance_calls W pk)).
Proof.
  unfold getBalance, looked_up, getBalance_calls, new_PublicKey, call, try_catch,
    bind, emit, ret, throw.
  destruct (PublicKey_of_text pk) as [bytes|e]; cbn.
  - destruct (connection_getBalance W bytes) as [x|e]; cbn;
      rewrite <- !app_assoc; reflexivity.
  - rewrite <- !app_assoc; reflexivity.
Qed.

Lemma refresh_mapM_run W id0 l r :
  mapM (fun addr =>
          if id_eqb (id addr) id0 then
            balanceLamports <- getBalance W (publicKey addr) ;;
            ret (with_balance addr (balanceLamports / LAMPORTS_PER_SOL)%float)
          else ret addr) l r
  = (Returned (map (refreshed W id0) l),
     mkRun (store r) (trace r ++ refresh_calls W id0 l)).
Proof.
  set (f := fun addr : KeypairRecord => _).
  assert (Hf : forall addr r',
             f addr r'
             = (Returned (refreshed W id0 addr),
                mkRun (store r')
                      (trace r' ++ if id_eqb (id addr) id0
                                   then getBalance_calls W (publicKey addr) else []))).
  { intros addr r'. unfold f, refreshed. destruct (id_eqb (id addr) id0).
    - unfold bind. rewrite getBalance_run. reflexivity.
    - unfold ret. rewrite app_nil_r. destruct r'; reflexivity. }
  clearbody f. revert r.
  induction l as [|addr rest IH]; intro r; cbn [mapM map refresh_calls flat_map].
  - unfold ret. rewrite app_nil_r. destruct r; reflexivity.
  - unfold bind. rewrite Hf, IH. unfold ret. cbn [store trace].
    rewrite <- app_assoc. reflexivity.
Qed.

Lemma refreshBalance_run W l id0 r :
  refreshBalance W l id0 r
  = (Returned tt,
     mkRun (mkStore (map (refreshed W id0) l) (transferData (store r))
                    (faucetAmount (store r)))
           (trace r ++ refresh_calls W id0 l)).
Proof.
  unfold refreshBalance. rewrite bind_run, refresh_mapM_run. reflexivity.
Qed.


Lemma looked_up_failed W pk : lookup_fails W pk = true -> looked_up W pk = zero.
Proof.
  unfold lookup_fails, looked_up.
  destruct (PublicKey_of_text pk) as [bytes|e]; [|reflexivity].
  destruct (connection_getBalance W bytes); [discriminate|reflexivity].
Qed.

Lemma getBalance_calls_no_alert W pk text : ~ In (Alert text) (getBalance_calls W pk).
Proof.
  unfold getBalance_calls.
  destruct (PublicKey_of_text pk) as [bytes|e];
    [destruct (connection_getBalance W bytes)|];
    cbn; intuition discriminate.
Qed.

Lemma refresh_calls_no_alert W id0 l text : ~ In (Alert text) (refresh_calls W id0 l).
Proof.
  unfold refresh_calls. rewrite in_flat_map. intros [addr [_ H]].
  destruct (id_eqb (id addr) id0); [|exact H].
  exact (getBalance_calls_no_alert _ _ _ H).
Qed.

(* ===================================================================== *)
(** * Balance refresh on a failed lookup *)
(* ===================================================================== *)

(** C1, as amended. When the ledger lookup fails for every record the
    refresh addresses (the address does not parse, or [connection.getBalance]
    rejects), [refreshBalance] still returns normally, shows no alert, and
    writes balance 0 into each such record: the failure only reaches the
    console. *)
Theorem refresh_failed_lookup_writes_zero W l id0 s :
  (forall addr, In addr l -> id_eqb (id addr) id0 = true ->
                lookup_fails W (publicKey addr) = true) ->
  fst (refreshBalance W l id0 (start s)) = Returned tt
  /\ addresses (store (snd (refreshBalance W l id0 (start s))))
     = map (fun addr => if id_eqb (id addr) id0 then with_balance addr zero else addr) l
  /\ (forall text, ~ In (Alert text) (trace (snd (refreshBalance W l id0 (start s))))).
Proof.
  intro Hfail. rewrite refreshBalance_run. cbn [fst snd store trace addresses start app].
  split; [reflexivity|]. split.
  - apply map_ext_in. intros addr Hin. unfold refreshed.
    destruct (id_eqb (id addr) id0) eqn:Hid; [|reflexivity].
    rewrite (looked_up_failed _ _ (Hfail addr Hin Hid)). reflexivity.
  - intro text. apply refresh_calls_no_alert.
Qed.

(** The refresh of a 5 SOL record while the ledger is unreachable. *)
Lemma refresh_failed_lookup_witness :
  let l := [record_A 5%float] in
  let s := mkStore l empty_form "1" in
  let W := offline_world 1700000000500 in
  fst (refreshBalance W l (Some 1700000000000%Z) (start s)) = Returned tt
  /\ addresses (store (snd (refreshBalance W l (Some 1700000000000%Z) (start s))))
     = map (fun addr => if id_eqb (id addr) (Some 1700000000000%Z)
                        then with_balance addr zero else addr) l
  /\ (forall text,
         ~ In (Alert text) (trace (snd (refreshBalance W l (Some 1700000000000%Z) (start s))))).
Proof.
  intros l s W.
  apply (refresh_failed_lookup_writes_zero W l (Some 1700000000000%Z) s).
  intros addr [<-|[]] _. reflexivity.
Defined.

(** C1, as stated, fails: with the ledger unreachable the refresh of a
    record holding 5 SOL returns without any report and leaves balance 0
    in place of the prior value. *)
Lemma refresh_failed_lookup_loses_balance :
  let l := [record_A 5%float] in
  let s := mkStore l empty_form "1" in
  let W := offline_world 1700000000500 in
  let run := refreshBalance W l (Some 1700000000000%Z) (start s) in
  lookup_fails W (Some address_A) = true
  /\ fst run = Returned tt
  /\ trace (snd run)
     = [NewPublicKey (Some address_A); GetBalance (repeat x00 32);
        ConsoleError "Error getting balance: failed to fetch"]
  /\ map balance (addresses (store (snd run))) = [Some zero]
  /\ map balance (addresses (store (snd run))) <> map balance l.
Proof.
  cbv zeta. rewrite refreshBalance_run.
  repeat split; try reflexivity.
  intro H.
  apply (f_equal (fun bs => match bs with
                            | [Some x] => (x =? 5)%float
                            | _ => true
                            end)) in H.
  vm_compute in H. discriminate H.
Qed.

(* ===================================================================== *)
(** * The transfer pipeline *)
(* ===================================================================== *)

Ltac unfold_handler :=
  cbv beta iota zeta delta
    [transferSOL submit_transfer validate_destination requestAirdrop
     try_catch bind ret throw emit call alert new_PublicKey bs58_decode
     Promise_race_timeout await setTransferData start store trace fst snd].

(** Case analysis on the innermost scrutinee the goal is stuck on. *)
Ltac split_match :=
  match goal with
  | |- context [match ?x with _ => _ end] =>
      lazymatch x with
      | context [match _ with _ => _ end] => fail
      | _ => destruct x eqn:?
      end
  end.

(** Runs a handler along every answer the world can give. *)
Ltac run_handler :=
  unfold_handler;
  repeat (first [rewrite refreshBalance_run | split_match];
          cbn [app store trace fst snd]).

Lemma ledger_after_build_true tr : ledger_after_build true tr = true.
Proof.
  induction tr as [|e r IH]; cbn; [reflexivity|].
  destruct (is_ledger_call e); cbn; exact IH.
Qed.

Lemma ledger_after_build_split built tr :
  ledger_after_build built tr = true ->
  forall pre e post,
    tr = pre ++ e :: post -> is_ledger_call e = true ->
    built = true \/ exists src dst lamports, In (SystemProgramTransfer src dst lamports) pre.
Proof.
  revert built. induction tr as [|x rest IH]; intros built Hok pre e post Heq He.
  - destruct pre; discriminate.
  - destruct pre as [|y pre']; cbn in Heq; injection Heq as -> ->.
    + cbn in Hok. rewrite He in Hok. apply andb_true_iff in Hok. left; tauto.
    + cbn in Hok. destruct (is_ledger_call y) eqn:Hy.
      * apply andb_true_iff in Hok. left; tauto.
      * destruct (IH _ Hok pre' e post eq_refl He) as [Hb|[src [dst [lam Hin]]]].
        -- apply orb_true_iff in Hb. destruct Hb as [Hb|Hb]; [left; exact Hb|].
           right. destruct y; try discriminate. do 3 eexists. left; reflexivity.
        -- right. exists src, dst, lam. right; exact Hin.
Qed.

Lemma transfer_ledger_after_build W l td s :
  ledger_after_build false (trace (snd (transferSOL W l td (start s)))) = true.
Proof.
  destruct td as [f t a]. run_handler.
  all: cbn [app ledger_after_build is_ledger_call is_transfer_build orb andb].
  all: try reflexivity.
  all: apply ledger_after_build_true.
Qed.

Lemma find_by_id_text_total l text :
  all_have_id l -> exists found, find_by_id_text l text = Ok found.
Proof.
  induction 1 as [|addr rest Hid _ IH]; cbn.
  - eexists; reflexivity.
  - destruct (id addr) as [n|]; [|contradiction].
    destruct (String.eqb (Number.toString n) text); [eexists; reflexivity|exact IH].
Qed.


(** C3. A transfer whose amount is empty, does not read as a number or is
    not positive makes no ledger call and leaves the state as it was; in an
    address book whose records all carry an id it ends with exactly one
    alert, one of the three of stage 1, a ValidationError. More generally,
    for every transfer, each ledger call comes after the
    [SystemProgram.transfer] call that ends stage 4. *)
Theorem transfer_invalid_amount_rejected_locally W l td s :
  (forall pre e post,
      trace (snd (transferSOL W l td (start s))) = pre ++ e :: post ->
      is_ledger_call e = true ->
      exists src dst lamports, In (SystemProgramTransfer src dst lamports) pre)
  /\ (invalid_amount (amount td) ->
      no_ledger_call (trace (snd (transferSOL W l td (start s))))
      /\ store (snd (transferSOL W l td (start s))) = s
      /\ (all_have_id l ->
          exists text,
            transferSOL W l td (start s) = (Returned tt, mkRun s [Alert text])
            /\ stage1_alert text
            /\ error_kind_of_alert text = Some ValidationError)).
Proof.
  split.
  - intros pre e post Heq He.
    destruct (ledger_after_build_split _ _ (transfer_ledger_after_build W l td s)
                                       pre e post Heq He) as [Hb|Hex];
      [discriminate|exact Hex].
  - intros Hbad.
    assert (Hgate :
      (negb (truthy_string (fromId td)) || negb (truthy_string (toPubkey td))
       || negb (truthy_string (amount td))) = true
      \/ (Number.isNaN (Number.parseFloat (amount td))
          || (Number.parseFloat (amount td) <=? 0)%float) = true).
    { destruct Hbad as [E|[E|E]].
      - left. rewrite E. apply orb_true_r.
      - right. rewrite E. reflexivity.
      - right. rewrite E. apply orb_true_r. }
    destruct td as [f t a]. cbn [amount fromId toPubkey] in *.
    unfold no_ledger_call. unfold_handler.
    destruct (negb (truthy_string f) || negb (truthy_string t)
              || negb (truthy_string a)) eqn:E1.
    + cbn. repeat split. intros _. eexists. split; [reflexivity|].
      split; [left; reflexivity|reflexivity].
    + destruct Hgate as [Hg|Hg]; [discriminate|].
      destruct (find_by_id_text l f) as [[k|]|e] eqn:Ef; cbn.
      * rewrite Hg. cbn. repeat split. intros _. eexists. split; [reflexivity|].
        split; [right; right; reflexivity|reflexivity].
      * repeat split. intros _. eexists. split; [reflexivity|].
        split; [right; left; reflexivity|reflexivity].
      * repeat split. intros Hall.
        destruct (find_by_id_text_total l f Hall) as [x Hx]. congruence.
Qed.

(** The request of amount 0 on a funded record, ledger reachable. *)
Lemma transfer_invalid_amount_witness :
  let l := [record_A 1%float] in
  let td := mkTransferData "1700000000000" address_B "0" in
  let s := mkStore l td "1" in
  let W := responsive_world 1700000000500 400 in
  no_ledger_call (trace (snd (transferSOL W l td (start s))))
  /\ store (snd (transferSOL W l td (start s))) = s
  /\ exists text,
      transferSOL W l td (start s) = (Returned tt, mkRun s [Alert text])
      /\ stage1_alert text
      /\ error_kind_of_alert text = Some ValidationError.
Proof.
  intros l td s W.
  destruct (proj2 (transfer_invalid_amount_rejected_locally W l td s))
    as (Hcalls & Hstore & Halert).
  - right; right. reflexivity.
  - split; [exact Hcalls|]. split; [exact Hstore|].
    apply Halert. repeat constructor. discriminate.
Defined.

(* ===================================================================== *)
(** * Comparisons of numbers *)
(* ===================================================================== *)

Section NumberComparisons.

Local Open Scope Z_scope.

(** Rounding keeps a mantissa that is not negative, so it never gives
    NaN. *)
Lemma shr_1_nonneg mrs : 0 <= shr_m mrs -> 0 <= shr_m (shr_1 mrs).
Proof.
  destruct mrs as [m r s]. cbn [shr_m].
  destruct m as [|[p|p|]|[p|p|]]; cbn; lia.
Qed.

Lemma iter_shr_1_nonneg p :
  forall mrs, 0 <= shr_m mrs -> 0 <= shr_m (iter_pos shr_1 p mrs).
Proof.
  induction p as [p IH|p IH|]; intros mrs H; cbn [iter_pos].
  - apply IH, IH, shr_1_nonneg, H.
  - apply IH, IH, H.
  - apply shr_1_nonneg, H.
Qed.

Lemma shr_fexp_nonneg m e l :
  0 <= m -> 0 <= shr_m (fst (shr_fexp prec emax m e l)).
Proof.
  intro H. unfold shr_fexp, shr.
  assert (Hrec : 0 <= shr_m (shr_record_of_loc m l))
    by (destruct l as [|[| |]]; exact H).
  destruct (fexp prec emax (Zdigits2 m + e) - e) as [|p|p]; cbn [fst];
    [exact Hrec|apply iter_shr_1_nonneg, Hrec|exact Hrec].
Qed.

Lemma round_nearest_even_nonneg mx lx : 0 <= mx -> 0 <= round_nearest_even mx lx.
Proof.
  intro H. destruct lx as [|[| |]]; cbn [round_nearest_even]; try lia.
  destruct (Z.even mx); lia.
Qed.

Lemma binary_round_aux_not_nan sx mx ex lx :
  0 <= mx -> binary_round_aux prec emax sx mx ex lx <> S754_nan.
Proof.
  intro H. unfold binary_round_aux.
  pose proof (shr_fexp_nonneg mx ex lx H) as H1.
  destruct (shr_fexp prec emax mx ex lx) as [mrs' e']. cbn [fst] in H1.
  pose proof (shr_fexp_nonneg _ e' loc_Exact
                (round_nearest_even_nonneg _ (loc_of_shr_record mrs') H1)) as H2.
  destruct (shr_fexp prec emax _ e' loc_Exact) as [mrs'' e'']. cbn [fst] in H2.
  destruct (shr_m mrs'') as [|m|m]; [discriminate| |lia].
  destruct (e'' <=? emax - prec); discriminate.
Qed.

Lemma binary_normalize_not_nan m e szero :
  binary_normalize prec emax m e szero <> S754_nan.
Proof.
  unfold binary_normalize, binary_round.
  destruct m as [|m|m]; [discriminate| |];
    destruct (shl_align _ _ _) as [mz ez]; apply binary_round_aux_not_nan; lia.
Qed.

(** A sum is NaN only when a term is, or when the terms are the two
    infinities. *)
Lemma SFadd_finite_not_nan x s m e :
  x <> S754_nan -> SFadd prec emax x (S754_finite s m e) <> S754_nan.
Proof.
  intro Hx. destruct x as [sx|sx| |sx mx ex]; cbn [SFadd]; try discriminate.
  - exact Hx.
  - apply binary_normalize_not_nan.
Qed.

Lemma is_nan_Prim2SF x : is_nan x = false <-> Prim2SF x <> S754_nan.
Proof.
  unfold is_nan. rewrite eqb_spec. unfold SFeqb.
  destruct (Prim2SF x) as [s|s| |s m e]; cbn.
  - split; [discriminate|reflexivity].
  - split; [discriminate|destruct s; reflexivity].
  - split; [discriminate|intro H; contradiction H; reflexivity].
  - split; [discriminate|]. intros _. destruct s.
    + rewrite Z.compare_refl. rewrite Pos.compare_cont_refl. reflexivity.
    + rewrite Z.compare_refl. rewrite Pos.compare_cont_refl. reflexivity.
Qed.

Lemma SFcompare_antisym x y :
  SFcompare y x = option_map CompOpp (SFcompare x y).
Proof.
  destruct x as [sx|sx| |sx mx ex], y as [sy|sy| |sy my ey]; cbn;
    try reflexivity;
    try (destruct sx; reflexivity); try (destruct sy; reflexivity);
    try (destruct sx, sy; reflexivity).
  f_equal. destruct sx, sy; try reflexivity.
  - rewrite (Z.compare_antisym ey ex).
    destruct (ey ?= ex); cbn; try reflexivity.
    rewrite (Pos.compare_cont_antisym mx my Eq). reflexivity.
  - rewrite (Z.compare_antisym ey ex).
    destruct (ey ?= ex); cbn; try reflexivity.
    rewrite (Pos.compare_cont_antisym mx my Eq). cbn. reflexivity.
Qed.

Lemma SFcompare_None x y :
  SFcompare x y = None -> x = S754_nan \/ y = S754_nan.
Proof.
  destruct x as [sx|sx| |sx mx ex], y as [sy|sy| |sy my ey]; cbn;
    try discriminate; auto.
Qed.

(** On numbers, [x < y] fails exactly when [y <= x] holds. *)
Lemma ltb_false_iff_leb x y :
  is_nan x = false -> is_nan y = false ->
  (x <? y)%float = negb (y <=? x)%float.
Proof.
  intros Hx Hy. apply is_nan_Prim2SF in Hx. apply is_nan_Prim2SF in Hy.
  rewrite ltb_spec, leb_spec. unfold SFltb, SFleb.
  rewrite (SFcompare_antisym (Prim2SF x) (Prim2SF y)).
  destruct (SFcompare (Prim2SF x) (Prim2SF y)) as [[| |]|] eqn:Hc;
    try reflexivity.
  apply SFcompare_None in Hc. tauto.
Qed.

Lemma add_literal_not_nan x y s m e :
  Prim2SF y = S754_finite s m e -> is_nan x = false -> is_nan (x + y)%float = false.
Proof.
  intros Hy Hx. apply is_nan_Prim2SF. apply is_nan_Prim2SF in Hx.
  rewrite add_spec, Hy. apply SFadd_finite_not_nan, Hx.
Qed.

End NumberComparisons.

(** After lines 151-167 let the request through, [transferSOL] is the
    balance check followed by the rest of the pipeline. *)
Lemma transfer_after_presence W l td fromAddr s :
  passes_presence l td fromAddr ->
  transferSOL W l td (start s)
  = try_catch
      (if (parseFloat_balance (balance fromAddr)
           <? Number.parseFloat (amount td) + 0.000005)%float
       then alert insufficient_alert
       else
         destination <- validate_destination W (toPubkey td) ;;
         match destination with
         | None => ret tt
         | Some toPublicKey =>
             submit_transfer W l fromAddr toPublicKey (Number.parseFloat (amount td))
         end)
      (fun err =>
         emit (ConsoleError ("Error transferring SOL: " ++ message err)) ;;
         alert ("Transfer failed: " ++ message err))
      (start s).
Proof.
  intros (H1 & H2 & H3 & H4 & H5 & H6).
  destruct td as [f t a]. cbn [fromId toPubkey amount] in *.
  unfold transferSOL, try_catch.
  rewrite H1, H2, H3, H4, H5, H6. reflexivity.
Qed.

Lemma transfer_insufficient_run W l td fromAddr s :
  passes_presence l td fromAddr ->
  (parseFloat_balance (balance fromAddr)
   <? Number.parseFloat (amount td) + FEE_RESERVE)%float = true ->
  transferSOL W l td (start s) = (Returned tt, mkRun s [Alert insufficient_alert]).
Proof.
  intros Hp Hlt. rewrite (transfer_after_presence _ _ _ _ _ Hp).
  unfold FEE_RESERVE in Hlt. unfold try_catch. rewrite Hlt. reflexivity.
Qed.

Lemma transfer_sufficient_run W l td fromAddr s :
  passes_presence l td fromAddr ->
  (parseFloat_balance (balance fromAddr)
   <? Number.parseFloat (amount td) + FEE_RESERVE)%float = false ->
  exists rest,
    trace (snd (transferSOL W l td (start s))) = NewPublicKey (Some (toPubkey td)) :: rest.
Proof.
  intros Hp Hlt. rewrite (transfer_after_presence _ _ _ _ _ Hp).
  unfold FEE_RESERVE in Hlt. unfold try_catch at 1. rewrite Hlt.
  run_handler; eexists; reflexivity.
Qed.

(** C2, as amended. Once presence validation has passed, and the cached
    balance of the source record is a number, the transfer goes on to
    validate the destination exactly when that balance is at least
    amount + 0.000005; otherwise it is rejected with the insufficient-funds
    alert, before any call. Line 171 tests this as
    [senderBalance < transferAmount + 0.000005]. *)
Theorem transfer_balance_precheck W l td fromAddr s :
  passes_presence l td fromAddr ->
  Number.isNaN (parseFloat_balance (balance fromAddr)) = false ->
  ((exists rest,
       trace (snd (transferSOL W l td (start s)))
       = NewPublicKey (Some (toPubkey td)) :: rest)
   <-> (Number.parseFloat (amount td) + FEE_RESERVE
        <=? parseFloat_balance (balance fromAddr))%float = true)
  /\ (transferSOL W l td (start s) = (Returned tt, mkRun s [Alert insufficient_alert])
      <-> (Number.parseFloat (amount td) + FEE_RESERVE
           <=? parseFloat_balance (balance fromAddr))%float = false)
  /\ error_kind_of_alert insufficient_alert = Some InsufficientFundsError
  /\ (parseFloat_balance (balance fromAddr)
      <? Number.parseFloat (amount td) + FEE_RESERVE)%float
     = negb (Number.parseFloat (amount td) + FEE_RESERVE
             <=? parseFloat_balance (balance fromAddr))%float.
Proof.
  intros Hp Hnum.
  pose proof (transfer_insufficient_run W l td fromAddr s Hp) as Hrej.
  pose proof (transfer_sufficient_run W l td fromAddr s Hp) as Hgo.
  assert (Hsum : is_nan (Number.parseFloat (amount td) + FEE_RESERVE)%float = false).
  { assert (Hfee : exists sg m e, Prim2SF FEE_RESERVE = S754_finite sg m e)
      by (vm_compute; do 3 eexists; reflexivity).
    destruct Hfee as (sg & m & e & Hfee).
    apply (add_literal_not_nan _ _ _ _ _ Hfee).
    destruct Hp as (_ & _ & _ & _ & Hamount & _). exact Hamount. }
  pose proof (ltb_false_iff_leb _ _ Hnum Hsum) as Hcmp.
  rewrite Hcmp in Hrej, Hgo.
  destruct (Number.parseFloat (amount td) + FEE_RESERVE
            <=? parseFloat_balance (balance fromAddr))%float eqn:Hle;
    cbn [negb] in Hrej, Hgo.
  - specialize (Hgo eq_refl). repeat split; try tauto; try exact Hcmp.
    + intro Hrun. destruct Hgo as [rest Hrest]. rewrite Hrun in Hrest.
      discriminate Hrest.
    + discriminate.
  - specialize (Hrej eq_refl). repeat split; try tauto; try exact Hcmp.
    + intros [rest Hrest]. rewrite Hrej in Hrest. discriminate Hrest.
    + discriminate.
Qed.

(** Balance 0.01 and amount 0.02: the request is rejected for
    insufficient funds. *)
Lemma transfer_balance_precheck_witness :
  let l := [record_A 0.01%float] in
  let td := mkTransferData "1700000000000" address_B "0.02" in
  let s := mkStore l td "1" in
  let W := responsive_world 1700000000500 400 in
  transferSOL W l td (start s) = (Returned tt, mkRun s [Alert insufficient_alert]).
Proof.
  intros l td s W.
  apply (proj2 (proj1 (proj2 (transfer_balance_precheck W l td (record_A 0.01%float) s
                                ltac:(repeat split; reflexivity) eq_refl)))).
  reflexivity.
Defined.

(** C2, as stated, fails at the boundary: a record holding 0.00001 SOL
    does not strictly exceed amount 0.000005 plus the reserve 0.000005, yet
    the transfer is not rejected, whatever the libraries and the ledger
    answer afterwards: it goes on to validate the destination. *)
Lemma transfer_at_exact_balance_passes_precheck :
  let l := [record_A 0.00001%float] in
  let td := mkTransferData "1700000000000" address_B "0.000005" in
  let s := mkStore l td "1" in
  passes_presence l td (record_A 0.00001%float)
  /\ (Number.parseFloat "0.000005" + FEE_RESERVE <? 0.00001)%float = false
  /\ (0.00001 =? Number.parseFloat "0.000005" + FEE_RESERVE)%float = true
  /\ (forall W,
        transferSOL W l td (start s) <> (Returned tt, mkRun s [Alert insufficient_alert])
        /\ exists rest,
            trace (snd (transferSOL W l td (start s)))
            = NewPublicKey (Some address_B) :: rest).
Proof.
  cbv zeta.
  assert (Hp : passes_presence [record_A 0.00001%float]
                 (mkTransferData "1700000000000" address_B "0.000005")
                 (record_A 0.00001%float))
    by (repeat split; reflexivity).
  split; [exact Hp|]. split; [reflexivity|]. split; [reflexivity|].
  intro W.
  destruct (transfer_sufficient_run W _ _ _
              (mkStore [record_A 0.00001%float]
                 (mkTransferData "1700000000000" address_B "0.000005") "1")
              Hp eq_refl) as [rest Hrest].
  split; [|exists rest; exact Hrest].
  intro Hrun. rewrite Hrun in Hrest. discriminate Hrest.
Qed.

Lemma substring_all (s : string) : String.substring 0 (String.length s) s = s.
Proof. induction s as [|c r IH]; cbn; [reflexivity|]. rewrite IH. reflexivity. Qed.

(** An on-chain error reported by a confirmation in time is shown with a
    text of kind LedgerRejectionError. *)
Lemma ledger_rejection_kind (err : string) :
  error_kind_of_alert ("Transfer failed: " ++ "Transaction failed: " ++ err)
  = Some LedgerRejectionError.
Proof.
  unfold error_kind_of_alert. cbn. rewrite substring_all.
  destruct err; reflexivity.
Qed.

(** C4. When the confirmation does not settle before the 30 second timer
    fires, a transfer that got as far as asking for it ends with the single
    alert of the timeout, whose kind is ConfirmationTimeoutError and not
    LedgerRejectionError; the state, and with it the cached balance of the
    source record, is as before, and no balance lookup is made. *)
Theorem transfer_confirmation_timeout W l td s :
  (forall signature, late (connection_confirmTransaction W signature)) ->
  reaches_confirmation (trace (snd (transferSOL W l td (start s)))) ->
  fst (transferSOL W l td (start s)) = Returned tt
  /\ alerts (trace (snd (transferSOL W l td (start s)))) = [timeout_alert]
  /\ error_kind_of_alert timeout_alert = Some ConfirmationTimeoutError
  /\ error_kind_of_alert timeout_alert <> Some LedgerRejectionError
  /\ store (snd (transferSOL W l td (start s))) = s
  /\ existsb is_balance_lookup (trace (snd (transferSOL W l td (start s)))) = false.
Proof.
  intros Hlate. unfold reaches_confirmation. destruct td as [f t a].
  run_handler.
  all: cbn [existsb is_confirm_call orb]; intro Hreach; try discriminate Hreach.
  all: try match goal with
           | H : connection_confirmTransaction _ ?sig = SettlesAt ?ms _,
             Hlt : (?ms <? 30000)%Z = true |- _ =>
               exfalso; specialize (Hlate sig); rewrite H in Hlate;
               cbn in Hlate; apply Z.ltb_lt in Hlt; lia
           end.
  all: repeat split; try reflexivity; discriminate.
Qed.

(** A transfer of 0.5 SOL from a 1 SOL record whose confirmation never
    arrives. *)
Lemma transfer_confirmation_timeout_witness :
  let l := [record_A 1%float] in
  let td := mkTransferData "1700000000000" address_B "0.5" in
  let s := mkStore l td "1" in
  let W := silent_world 1700000000500 in
  fst (transferSOL W l td (start s)) = Returned tt
  /\ alerts (trace (snd (transferSOL W l td (start s)))) = [timeout_alert]
  /\ error_kind_of_alert timeout_alert = Some ConfirmationTimeoutError
  /\ error_kind_of_alert timeout_alert <> Some LedgerRejectionError
  /\ store (snd (transferSOL W l td (start s))) = s
  /\ existsb is_balance_lookup (trace (snd (transferSOL W l td (start s)))) = false.
Proof.
  intros l td s W.
  apply (transfer_confirmation_timeout W l td s).
  - intro signature. exact I.
  - reflexivity.
Defined.

(** C7. A transfer whose destination text is no address, or an address off
    the curve, decodes no secret, derives no keypair, builds no transaction
    and makes no ledger call, and leaves the state as it was; when stages 1
    and 2 let the request through it ends with exactly one alert, one of
    the two of stage 3, a ValidationError. *)
Theorem transfer_invalid_destination_rejected W l td s :
  invalid_destination W (toPubkey td) ->
  no_construction_call (trace (snd (transferSOL W l td (start s))))
  /\ no_ledger_call (trace (snd (transferSOL W l td (start s))))
  /\ store (snd (transferSOL W l td (start s))) = s
  /\ (forall fromAddr,
         passes_presence l td fromAddr ->
         (parseFloat_balance (balance fromAddr)
          <? Number.parseFloat (amount td) + FEE_RESERVE)%float = false ->
         fst (transferSOL W l td (start s)) = Returned tt
         /\ exists text,
             alerts (trace (snd (transferSOL W l td (start s)))) = [text]
             /\ stage3_alert text
             /\ error_kind_of_alert text = Some ValidationError).
Proof.
  intro Hinv. unfold invalid_destination in Hinv.
  split; [|split; [|split]].
  1-3: revert Hinv; destruct td as [f t a]; cbn [toPubkey];
       unfold no_construction_call, no_ledger_call; run_handler;
       intro Hinv; try reflexivity;
       match goal with
       | H : negb (PublicKey_isOnCurve _ _) = false |- _ =>
           rewrite Hinv in H; discriminate H
       end.
  intros fromAddr Hp Hlt.
  rewrite (transfer_after_presence _ _ _ _ _ Hp).
  unfold FEE_RESERVE in Hlt. unfold try_catch at 1. rewrite Hlt.
  unfold_handler.
  destruct (PublicKey_of_text (Some (toPubkey td))) as [bytes|e].
  - rewrite Hinv. cbn. split; [reflexivity|].
    eexists. split; [reflexivity|]. split; [left; reflexivity|reflexivity].
  - cbn. split; [reflexivity|].
    eexists. split; [reflexivity|]. split; [right; reflexivity|reflexivity].
Qed.

(** A transfer to a text that holds the letter l, which base58 lacks. *)
Lemma transfer_invalid_destination_witness :
  let l := [record_A 1%float] in
  let td := mkTransferData "1700000000000" "not-a-solana-address" "0.5" in
  let s := mkStore l td "1" in
  let W := responsive_world 1700000000500 400 in
  no_construction_call (trace (snd (transferSOL W l td (start s))))
  /\ no_ledger_call (trace (snd (transferSOL W l td (start s))))
  /\ store (snd (transferSOL W l td (start s))) = s
  /\ fst (transferSOL W l td (start s)) = Returned tt
  /\ exists text,
      alerts (trace (snd (transferSOL W l td (start s)))) = [text]
      /\ stage3_alert text
      /\ error_kind_of_alert text = Some ValidationError.
Proof.
  intros l td s W.
  destruct (transfer_invalid_destination_rejected W l td s I)
    as (Hbuild & Hcalls & Hstore & Halert).
  split; [exact Hbuild|]. split; [exact Hcalls|]. split; [exact Hstore|].
  apply (Halert (record_A 1%float)).
  - repeat split; reflexivity.
  - reflexivity.
Defined.

(** C8. A faucet request whose amount reads as more than 2 makes no ledger
    call and leaves the state as it was; when the record is found and its
    address parses, the handler shows the alert of the cap and returns. *)
Theorem airdrop_over_cap_rejected W l text id0 s :
  (2 <? Number.parseFloat text)%float = true ->
  no_ledger_call (trace (snd (requestAirdrop W l text id0 (start s))))
  /\ fst (requestAirdrop W l text id0 (start s)) = Returned tt
  /\ store (snd (requestAirdrop W l text id0 (start s))) = s
  /\ (forall targetAddr bytes,
         find (fun item => id_eqb (id item) id0) l = Some targetAddr ->
         PublicKey_of_text (publicKey targetAddr) = Ok bytes ->
         trace (snd (requestAirdrop W l text id0 (start s)))
         = [NewPublicKey (publicKey targetAddr); Alert cap_alert]).
Proof.
  intro Hcap. unfold no_ledger_call. unfold_handler.
  destruct (find (fun item => id_eqb (id item) id0) l) as [targetAddr|].
  - destruct (PublicKey_of_text (publicKey targetAddr)) as [bytes|e] eqn:Ekey; cbn.
    + rewrite Hcap. cbn. repeat split.
      intros ? ? Hfind Hkey. injection Hfind as <-. reflexivity.
    + repeat split. intros ? ? Hfind Hkey. injection Hfind as <-.
      rewrite Ekey in Hkey. discriminate Hkey.
  - cbn. repeat split. intros ? ? Hfind. discriminate Hfind.
Qed.

(** The faucet request of 3 SOL. *)
Lemma airdrop_over_cap_witness :
  let l := [record_A 0%float] in
  let s := mkStore l empty_form "3" in
  let W := responsive_world 1700000000500 400 in
  let id0 := Some 1700000000000%Z in
  no_ledger_call (trace (snd (requestAirdrop W l "3" id0 (start s))))
  /\ fst (requestAirdrop W l "3" id0 (start s)) = Returned tt
  /\ store (snd (requestAirdrop W l "3" id0 (start s))) = s
  /\ trace (snd (requestAirdrop W l "3" id0 (start s)))
     = [NewPublicKey (Some address_A); Alert cap_alert].
Proof.
  intros l s W id0.
  destruct (airdrop_over_cap_rejected W l "3" id0 s eq_refl)
    as (Hcalls & Hret & Hstore & Htrace).
  split; [exact Hcalls|]. split; [exact Hret|]. split; [exact Hstore|].
  apply (Htrace (record_A 0%float) (repeat x00 32)); reflexivity.
Defined.

(* ===================================================================== *)
(** * Import of a backup file *)
(* ===================================================================== *)

Lemma validate_keypair_run addr r :
  validate_keypair addr r
  = (if well_formed_entry addr then Returned tt else Thrown (validation_error addr),
     mkRun (store r) (trace r ++ validation_calls addr)).
Proof.
  unfold validate_keypair, well_formed_entry, validation_calls, validation_error,
    fields_present, address_syntax_ok, secret_length_ok.
  destruct (truthy_text (publicKey addr)); cbn [negb orb andb];
    [|rewrite app_nil_r; destruct r; reflexivity].
  destruct (truthy_text (privateKey addr)); cbn [negb orb andb];
    [|rewrite app_nil_r; destruct r; reflexivity].
  destruct (truthy_id (id addr)); cbn [negb orb andb];
    [|rewrite app_nil_r; destruct r; reflexivity].
  unfold try_catch, bind, new_PublicKey, bs58_decode, call, emit, ret, throw.
  destruct (PublicKey_of_text (publicKey addr)); cbn; [|reflexivity].
  destruct (bs58_decode_value (privateKey addr)) as [decoded|e]; cbn.
  - destruct (length decoded =? 64)%nat; cbn; rewrite <- app_assoc; reflexivity.
  - rewrite <- app_assoc; reflexivity.
Qed.

Lemma first_defect_none entries :
  first_defect entries = None <-> forallb well_formed_entry entries = true.
Proof.
  induction entries as [|addr rest IH]; cbn; [tauto|].
  destruct (well_formed_entry addr); cbn; [exact IH|]. split; discriminate.
Qed.

Lemma forEach_validate_run entries r :
  forEach validate_keypair entries r
  = (match first_defect entries with
     | None => Returned tt
     | Some addr => Thrown (validation_error addr)
     end,
     mkRun (store r) (trace r ++ loop_calls entries)).
Proof.
  revert r. induction entries as [|addr rest IH]; intro r; cbn [forEach first_defect loop_calls].
  - unfold ret. rewrite app_nil_r. destruct r; reflexivity.
  - rewrite bind_run, validate_keypair_run.
    destruct (well_formed_entry addr).
    + rewrite IH. cbn [store trace]. rewrite <- app_assoc. reflexivity.
    + rewrite app_nil_r. reflexivity.
Qed.

Lemma loop_calls_no_alert entries : alerts (loop_calls entries) = [].
Proof.
  induction entries as [|addr rest IH]; cbn [loop_calls]; [reflexivity|].
  unfold validation_calls.
  destruct (fields_present addr); [destruct (address_syntax_ok addr)|];
    destruct (well_formed_entry addr); cbn; try reflexivity; exact IH.
Qed.

Lemma alerts_app tr1 tr2 : alerts (tr1 ++ tr2) = alerts tr1 ++ alerts tr2.
Proof.
  induction tr1 as [|e r IH]; cbn; [reflexivity|].
  destruct e; cbn; rewrite IH; reflexivity.
Qed.

(** What [loadKeypairs] does on a payload that passes validation. *)
Lemma loadKeypairs_accept_run entries s :
  forallb well_formed_entry entries = true ->
  loadKeypairs (ArrayOf entries) (start s)
  = (Returned tt,
     mkRun (mkStore (merge_loaded entries (addresses s)) (transferData s) (faucetAmount s))
           (loop_calls entries ++ [Alert "Successfully loaded keypairs"])).
Proof.
  intro Hok. apply first_defect_none in Hok.
  unfold loadKeypairs, try_catch.
  rewrite bind_run, forEach_validate_run, Hok. reflexivity.
Qed.

(** What it does on any other payload. *)
Lemma loadKeypairs_reject_run payload s :
  match payload with
  | ArrayOf entries => forallb well_formed_entry entries = false
  | _ => True
  end ->
  exists e calls,
    alerts calls = []
    /\ loadKeypairs payload (start s)
       = (Returned tt,
          mkRun s (calls ++ [ConsoleError ("Error loading keypairs: " ++ message e);
                             Alert ("Failed to load keypairs: " ++ message e)])).
Proof.
  destruct payload as [msg| |entries|before type_error]; intro Hbad.
  - exists (mkError msg), []. split; reflexivity.
  - eexists _, []. split; reflexivity.
  - destruct (first_defect entries) as [addr|] eqn:Hd.
    + exists (validation_error addr), (loop_calls entries).
      split; [apply loop_calls_no_alert|].
      unfold loadKeypairs, try_catch.
      rewrite bind_run, forEach_validate_run, Hd.
      cbv beta iota. unfold bind, alert, emit. cbn [store trace start app].
      rewrite <- app_assoc. reflexivity.
    + apply first_defect_none in Hd. congruence.
  - exists (match first_defect before with
            | Some addr => validation_error addr
            | None => mkError type_error
            end), (loop_calls before).
    split; [apply loop_calls_no_alert|].
    unfold loadKeypairs, try_catch.
    rewrite bind_run, forEach_validate_run.
    destruct (first_defect before) as [addr|];
      cbv beta iota; unfold bind, alert, emit, throw; cbn [store trace start app];
      rewrite <- app_assoc; reflexivity.
Qed.

Lemma defective_entry_not_well_formed addr :
  missing_field addr \/ bad_address_syntax addr \/ bad_secret_length addr ->
  well_formed_entry addr = false.
Proof.
  unfold well_formed_entry, fields_present, address_syntax_ok, secret_length_ok.
  intros [[H|[H|H]]|[[e H]|H]].
  - rewrite H. cbn. rewrite !andb_false_r. reflexivity.
  - rewrite H. reflexivity.
  - rewrite H. cbn. rewrite andb_false_r. reflexivity.
  - rewrite H. rewrite andb_false_r. reflexivity.
  - unfold bad_secret_length in H.
    destruct (bs58_decode_value (privateKey addr)) as [decoded|e];
      [|apply andb_false_r].
    destruct (Nat.eqb_spec (length decoded) 64) as [Hlen|Hlen];
      [|apply andb_false_r].
    exfalso. exact (H decoded eq_refl Hlen).
Qed.

(** C5. A payload that is not a sequence, or that holds an entry without
    id, public key or private key, or with a public key that fails the
    address syntax, or with a private key that does not decode to 64 bytes,
    is rejected as a whole: the state is as before and the one alert shown
    reports the failure. *)
Theorem import_rejects_defective_payload payload s :
  defective_payload payload ->
  store (snd (loadKeypairs payload (start s))) = s
  /\ fst (loadKeypairs payload (start s)) = Returned tt
  /\ exists e,
      alerts (trace (snd (loadKeypairs payload (start s))))
      = [("Failed to load keypairs: " ++ message e)%string].
Proof.
  intro Hdef.
  destruct (loadKeypairs_reject_run payload s) as (e & calls & Hcalls & Hrun).
  - destruct payload as [msg| |entries|before type_error]; try exact I.
    destruct Hdef as (addr & Hin & Hbad).
    destruct (forallb well_formed_entry entries) eqn:Hall; [|reflexivity].
    rewrite forallb_forall in Hall. specialize (Hall addr Hin).
    rewrite (defective_entry_not_well_formed addr Hbad) in Hall.
    discriminate Hall.
  - rewrite Hrun. cbn [fst snd store trace]. repeat split.
    exists e. rewrite alerts_app, Hcalls. reflexivity.
Qed.

(** A payload of two entries, the second with a secret of 63 bytes. *)
Lemma import_rejects_defective_payload_witness :
  let good := mkRecord (Some 1700000000001%Z) (Some address_B) (Some secret_64)
                       (Some false) (Some 0%float) in
  let short := mkRecord (Some 1700000000002%Z) (Some address_A) (Some secret_63)
                        (Some false) (Some 0%float) in
  let payload := ArrayOf [good; short] in
  let s := mkStore [record_A 1%float] empty_form "1" in
  store (snd (loadKeypairs payload (start s))) = s
  /\ fst (loadKeypairs payload (start s)) = Returned tt
  /\ exists e,
      alerts (trace (snd (loadKeypairs payload (start s))))
      = [("Failed to load keypairs: " ++ message e)%string].
Proof.
  intros good short payload s.
  apply (import_rejects_defective_payload payload s).
  exists short. split; [right; left; reflexivity|].
  right; right. intros decoded Hdecoded.
  vm_compute in Hdecoded. injection Hdecoded as <-.
  vm_compute. discriminate.
Defined.

Lemma text_eqb_eq a b : text_eqb a b = true <-> a = b.
Proof.
  destruct a as [x|], b as [y|]; cbn; try (split; congruence).
  rewrite String.eqb_eq. split; congruence.
Qed.

Lemma Set_has_In keys k : Set_has keys k = true <-> In k keys.
Proof.
  unfold Set_has. rewrite existsb_exists. split.
  - intros [x [Hin Heq]]. apply text_eqb_eq in Heq. subst x. exact Hin.
  - intro Hin. exists k. split; [exact Hin|]. apply text_eqb_eq. reflexivity.
Qed.

Lemma new_Set_In keys k : In k (new_Set keys) <-> In k keys.
Proof.
  unfold new_Set.
  assert (Hgen : forall acc,
             In k (fold_left (fun s x => if Set_has s x then s else s ++ [x]) keys acc)
             <-> In k acc \/ In k keys).
  { induction keys as [|x rest IH]; intro acc; cbn [fold_left].
    - cbn. tauto.
    - rewrite IH. destruct (Set_has acc x) eqn:Hx.
      + apply Set_has_In in Hx. cbn. intuition (subst; auto).
      + rewrite in_app_iff. cbn. tauto. }
  rewrite Hgen. cbn. tauto.
Qed.

Lemma existing_key_dec prev k :
  Set_has (new_Set (map publicKey prev)) k = true <-> In k (map publicKey prev).
Proof. rewrite Set_has_In. apply new_Set_In. Qed.

(** The updater of lines 304-308 carries out the merge of the design
    document. *)
Lemma merge_loaded_spec entries prev :
  exists added,
    merge_loaded entries prev = prev ++ added /\ merge_spec prev entries added.
Proof.
  unfold merge_loaded. eexists. split; [reflexivity|].
  induction entries as [|addr rest IH]; cbn [filter]; [constructor|].
  destruct (Set_has (new_Set (map publicKey prev)) (publicKey addr)) eqn:Hhas;
    cbn [negb].
  - apply merge_skip; [apply existing_key_dec; exact Hhas|exact IH].
  - apply merge_append; [|exact IH].
    intro Hin. apply existing_key_dec in Hin. congruence.
Qed.

Lemma merge_spec_functional prev entries added1 added2 :
  merge_spec prev entries added1 -> merge_spec prev entries added2 -> added1 = added2.
Proof.
  intro H1. revert added2.
  induction H1 as [|addr rest added Hin _ IH|addr rest added Hout _ IH];
    intros added2 H2; inversion H2; subst; try contradiction; auto.
  f_equal. auto.
Qed.

(** C6. On a payload that passes validation the address book becomes the
    old one followed by the entries added by the merge of the design
    document: in input order, every entry whose public key is already in
    the book is skipped and every other entry is appended. With one new
    entry and one entry that duplicates a public key, in either order, a
    book of K records becomes one of K+1, the new entry last. *)
Theorem import_merges_by_public_key entries s :
  forallb well_formed_entry entries = true ->
  (exists added,
      addresses (store (snd (loadKeypairs (ArrayOf entries) (start s))))
      = addresses s ++ added
      /\ merge_spec (addresses s) entries added)
  /\ (forall fresh dup,
         entries = [fresh; dup] \/ entries = [dup; fresh] ->
         ~ In (publicKey fresh) (map publicKey (addresses s)) ->
         In (publicKey dup) (map publicKey (addresses s)) ->
         addresses (store (snd (loadKeypairs (ArrayOf entries) (start s))))
         = addresses s ++ [fresh]
         /\ length (addresses (store (snd (loadKeypairs (ArrayOf entries) (start s)))))
            = S (length (addresses s))).
Proof.
  intro Hok. rewrite (loadKeypairs_accept_run entries s Hok).
  cbn [snd store addresses].
  destruct (merge_loaded_spec entries (addresses s)) as (added & Hadded & Hspec).
  split; [exists added; split; assumption|].
  intros fresh dup Hshape Hfresh Hdup.
  assert (Hone : merge_spec (addresses s) entries [fresh]).
  { destruct Hshape as [-> | ->].
    - apply merge_append; [exact Hfresh|]. apply merge_skip; [exact Hdup|constructor].
    - apply merge_skip; [exact Hdup|]. apply merge_append; [exact Hfresh|constructor]. }
  rewrite Hadded, (merge_spec_functional _ _ _ _ Hspec Hone).
  split; [reflexivity|]. rewrite length_app. cbn. lia.
Qed.

(** A book of one record; a file with one entry for a new address and one
    entry that repeats the address of the book under another id. *)
Lemma import_merges_by_public_key_witness :
  let fresh := mkRecord (Some 1700000000001%Z) (Some address_B) (Some secret_64)
                        (Some false) (Some 0%float) in
  let dup := mkRecord (Some 1700000000002%Z) (Some address_A) (Some secret_64)
                      (Some true) (Some 7%float) in
  let s := mkStore [record_A 1%float] empty_form "1" in
  addresses (store (snd (loadKeypairs (ArrayOf [fresh; dup]) (start s))))
  = [record_A 1%float; fresh].
Proof.
  intros fresh dup s.
  apply (proj2 (import_merges_by_public_key [fresh; dup] s eq_refl) fresh dup).
  - left; reflexivity.
  - cbn. intros [H|[]]. discriminate H.
  - left; reflexivity.
Defined.

Lemma merge_spec_appends prev entries added addr :
  merge_spec prev entries added ->
  In addr entries -> ~ In (publicKey addr) (map publicKey prev) -> In addr added.
Proof.
  induction 1 as [|x rest added Hin _ IH|x rest added Hout _ IH]; intros Hmem Hnew.
  - destruct Hmem.
  - destruct Hmem as [<-|Hmem]; [contradiction|auto].
  - destruct Hmem as [<-|Hmem]; [left; reflexivity|right; auto].
Qed.

Lemma loop_calls_no_derivation entries :
  existsb is_derivation_call (loop_calls entries) = false.
Proof.
  induction entries as [|addr rest IH]; cbn [loop_calls]; [reflexivity|].
  rewrite existsb_app. unfold validation_calls.
  destruct (fields_present addr); [destruct (address_syntax_ok addr)|];
    destruct (well_formed_entry addr); cbn; try reflexivity; exact IH.
Qed.

(** C10. An entry with the three fields present, a public key that passes
    the address syntax and a private key that decodes to 64 bytes enters
    the address book with the payload it belongs to, unless its public key
    is already there; no keypair is derived from any private key on the
    way, so whether the entry is [paired] plays no part. *)
Theorem import_does_not_check_pairing entries addr s :
  forallb well_formed_entry entries = true ->
  In addr entries ->
  ~ In (publicKey addr) (map publicKey (addresses s)) ->
  In addr (addresses (store (snd (loadKeypairs (ArrayOf entries) (start s)))))
  /\ existsb is_derivation_call (trace (snd (loadKeypairs (ArrayOf entries) (start s))))
     = false.
Proof.
  intros Hok Hin Hnew. rewrite (loadKeypairs_accept_run entries s Hok).
  cbn [snd store addresses trace]. split.
  - destruct (merge_loaded_spec entries (addresses s)) as (added & -> & Hspec).
    apply in_or_app. right. exact (merge_spec_appends _ _ _ _ Hspec Hin Hnew).
  - rewrite existsb_app, loop_calls_no_derivation. reflexivity.
Qed.

(** An entry whose private key derives another address than the one it
    states is imported. *)
Lemma import_does_not_check_pairing_witness :
  let addr := mkRecord (Some 1700000000001%Z) (Some address_B) (Some secret_64)
                       (Some false) (Some 0%float) in
  let s := mkStore [record_A 1%float] empty_form "1" in
  ~ paired (responsive_world 1700000000500 400) addr
  /\ In addr (addresses (store (snd (loadKeypairs (ArrayOf [addr]) (start s)))))
  /\ existsb is_derivation_call (trace (snd (loadKeypairs (ArrayOf [addr]) (start s))))
     = false.
Proof.
  intros addr s. split.
  - intros (address & secret & keypair & Ha & Hs & Hk & Heq).
    vm_compute in Ha, Hs. injection Ha as <-. injection Hs as <-.
    vm_compute in Hk. injection Hk as <-. vm_compute in Heq. discriminate Heq.
  - apply (import_does_not_check_pairing [addr] addr s eq_refl).
    + left; reflexivity.
    + cbn. intros [H|[]]. discriminate H.
Defined.

(* ===================================================================== *)
(** * Ids along sequences of actions *)
(* ===================================================================== *)

Lemma map_id_refreshed W id0 l : map id (map (refreshed W id0) l) = map id l.
Proof.
  rewrite map_map. apply map_ext. intro addr. unfold refreshed.
  destruct (id_eqb (id addr) id0); reflexivity.
Qed.

Lemma map_id_toggled id0 l :
  map id (map (fun addr =>
                 if id_eqb (id addr) id0
                 then with_showPrivate addr (negb (truthy_flag (showPrivate addr)))
                 else addr) l)
  = map id l.
Proof.
  rewrite map_map. apply map_ext. intro addr.
  destruct (id_eqb (id addr) id0); reflexivity.
Qed.

Lemma NoDup_map_filter {A B} (f : A -> B) (p : A -> bool) l :
  NoDup (map f l) -> NoDup (map f (filter p l)).
Proof.
  induction l as [|a rest IH]; cbn; intro H; [constructor|].
  inversion H as [|? ? Hnotin Hrest]; subst.
  destruct (p a); cbn; [|auto].
  constructor; [|auto].
  intro Hin. apply Hnotin. apply in_map_iff in Hin.
  destruct Hin as (x & Hx & Hfx). apply filter_In in Hfx.
  apply in_map_iff. exists x. tauto.
Qed.

Lemma NoDup_app_intro {A} (l1 l2 : list A) :
  NoDup l1 -> NoDup l2 -> (forall x, In x l2 -> ~ In x l1) -> NoDup (l1 ++ l2).
Proof.
  induction l1 as [|a rest IH]; cbn; intros H1 H2 Hsep; [exact H2|].
  inversion H1 as [|? ? Hnotin Hrest]; subst. constructor.
  - rewrite in_app_iff. intros [Hin|Hin]; [contradiction|].
    apply (Hsep a Hin). left; reflexivity.
  - apply IH; auto. intros x Hx Hin. apply (Hsep x Hx). right; exact Hin.
Qed.

(** The ids a handler that only refreshes can leave behind. *)
Lemma transferSOL_ids W td s :
  map id (addresses (store (snd (transferSOL W (addresses s) td (start s)))))
  = map id (addresses s).
Proof.
  destruct td as [f t a]. run_handler.
  all: cbn [addresses]; try reflexivity; apply map_id_refreshed.
Qed.

Lemma requestAirdrop_ids W text id0 s :
  map id (addresses (store (snd (requestAirdrop W (addresses s) text id0 (start s)))))
  = map id (addresses s).
Proof.
  run_handler.
  all: cbn [addresses]; try reflexivity; apply map_id_refreshed.
Qed.

Lemma NoDup_app_inv {A} (l1 l2 : list A) :
  NoDup (l1 ++ l2) ->
  NoDup l1 /\ NoDup l2 /\ (forall x, In x l2 -> ~ In x l1).
Proof.
  induction l1 as [|a rest IH]; cbn; intro H.
  - repeat split; [constructor|exact H|auto].
  - inversion H as [|? ? Hnotin Hrest]; subst.
    destruct (IH Hrest) as (H1 & H2 & Hsep). rewrite in_app_iff in Hnotin.
    repeat split; [constructor; tauto|exact H2|].
    intros x Hx [<-|Hin]; [tauto|exact (Hsep x Hx Hin)].
Qed.

(** The import appends the entries of [appended_by_import], and nothing
    else changes in the address list. *)
Lemma loadKeypairs_addresses payload s :
  addresses (store (snd (loadKeypairs payload (start s))))
  = addresses s ++ appended_by_import s payload.
Proof.
  unfold appended_by_import.
  destruct payload as [msg| |entries|before type_error];
    try (cbn; rewrite app_nil_r; reflexivity).
  - destruct (forallb well_formed_entry entries) eqn:Hok.
    + rewrite (loadKeypairs_accept_run _ _ Hok). reflexivity.
    + destruct (loadKeypairs_reject_run (ArrayOf entries) s Hok)
        as (e & calls & _ & ->). cbn. rewrite app_nil_r. reflexivity.
  - destruct (loadKeypairs_reject_run (ArrayWithNull before type_error) s I)
      as (e & calls & _ & ->). cbn. rewrite app_nil_r. reflexivity.
Qed.

(** Only entries that passed validation are appended. *)
Lemma appended_by_import_well_formed s payload addr :
  In addr (appended_by_import s payload) -> well_formed_entry addr = true.
Proof.
  unfold appended_by_import.
  destruct payload as [msg| |entries|before type_error]; try (intros []).
  destruct (forallb well_formed_entry entries) eqn:Hok; [|intros []].
  intro Hin. apply filter_In in Hin. rewrite forallb_forall in Hok.
  apply Hok. tauto.
Qed.

(** One action keeps the ids apart exactly when it satisfies
    [keeps_ids_apart]. *)
Lemma step_unique_ids_iff s wa :
  unique_ids (addresses s) ->
  (unique_ids (addresses (step s wa)) <-> keeps_ids_apart s wa).
Proof.
  destruct wa as [W a]. unfold unique_ids, keeps_ids_apart, step, handle.
  cbn [fst snd]. intro Huniq.
  destruct a as [|id0|id0|id0|id0| |payload|td|text]; cbn [start store].
  - cbn. rewrite map_app. cbn [map id]. split.
    + intros H Hin. apply NoDup_app_inv in H. destruct H as (_ & _ & Hsep).
      apply (Hsep _ (or_introl eq_refl) Hin).
    + intro Hapart.
      apply NoDup_app_intro; [exact Huniq|repeat constructor; intros []|].
      intros x [<-|[]]. exact Hapart.
  - cbn. split; [auto|]. intros _. apply NoDup_map_filter. exact Huniq.
  - cbn. rewrite map_id_toggled. tauto.
  - rewrite refreshBalance_run. cbn. rewrite map_id_refreshed. tauto.
  - rewrite requestAirdrop_ids. tauto.
  - rewrite transferSOL_ids. tauto.
  - rewrite loadKeypairs_addresses, map_app. split.
    + intro H. apply NoDup_app_inv in H. destruct H as (_ & Hnodup & Hsep).
      split; [exact Hnodup|]. intros addr Hin. apply Hsep.
      apply in_map. exact Hin.
    + intros [Hnodup Hnew].
      apply NoDup_app_intro; [exact Huniq|exact Hnodup|].
      intros x Hx. apply in_map_iff in Hx. destruct Hx as (addr & <- & Hin).
      apply Hnew. exact Hin.
  - tauto.
  - tauto.
Qed.

(** C9, as amended. From an address book without two records of the same
    id, no two records share an id after any number of the actions of a
    sequence, exactly when each creation in it happens at a clock reading
    that is no id of the address book at that moment, and the entries each
    import appends (those of a file that passes validation whose public key
    the book does not hold) have ids that differ from one another and from
    those of the book. Deleting, toggling, refreshing, funding and
    transferring never bring two records to share an id. *)
Theorem unique_ids_along_admissible_actions s l :
  unique_ids (addresses s) ->
  (admissible s l
   <-> forall n, unique_ids (addresses (run_actions s (firstn n l)))).
Proof.
  revert s. induction l as [|wa rest IH]; intros s Huniq.
  - split; [|intros _; exact I]. intros _ n. rewrite firstn_nil. exact Huniq.
  - cbn [admissible]. split.
    + intros [Hapart Hrest] [|n]; [exact Huniq|].
      cbn [firstn run_actions fold_left].
      apply (IH (step s wa)); [|exact Hrest].
      apply step_unique_ids_iff; assumption.
    + intro Hall.
      assert (Hstep : unique_ids (addresses (step s wa))) by exact (Hall 1%nat).
      split; [apply step_unique_ids_iff; assumption|].
      apply (IH (step s wa) Hstep). intro n. exact (Hall (S n)).
Qed.

(** A creation, the import of a backup that holds the created record
    again, next to a record of another key and another id, and the removal
    of the first record: the ids stay apart throughout. *)
Lemma unique_ids_along_admissible_actions_witness :
  let s := mkStore [] empty_form "1" in
  let fresh := mkRecord (Some 1700000000500%Z) (Some address_B) (Some secret_64)
                        (Some false) (Some 0%float) in
  let W := responsive_world 1700000000000 400 in
  let l := [(W, ClickCreate);
            (responsive_world 1700000000900 400,
             ChooseFile (ArrayOf (addresses (step s (W, ClickCreate)) ++ [fresh])));
            (responsive_world 1700000000950 400, ClickDelete (Some 1700000000000%Z))] in
  unique_ids (addresses s)
  /\ admissible s l
  /\ map id (addresses (run_actions s l)) = [Some 1700000000500%Z]
  /\ forall n, unique_ids (addresses (run_actions s (firstn n l))).
Proof.
  intros s fresh W l.
  assert (Huniq : unique_ids (addresses s)) by constructor.
  assert (Hadm : admissible s l).
  { split; [intros []|]. split; [|split; exact I].
    vm_compute. split; [repeat constructor; intros []|].
    intros addr [<-|[]] [H|[]]. discriminate H. }
  split; [exact Huniq|]. split; [exact Hadm|]. split; [reflexivity|].
  exact (proj1 (unique_ids_along_admissible_actions s l Huniq) Hadm).
Defined.

(** C9, as stated, fails. Two creations within the same millisecond give
    two records, of different keys, with the same id; and a file whose one
    entry reuses the id of a record of the book, under another public key,
    passes validation and is appended. *)
Lemma records_come_to_share_an_id :
  let W1 := responsive_world 1700000000000 400 in
  let W2 := with_generated W1 other_keypair in
  let created :=
    run_actions (mkStore [] empty_form "1") [(W1, ClickCreate); (W2, ClickCreate)] in
  let entry := mkRecord (Some 1700000000000%Z) (Some address_B) (Some secret_64)
                        (Some false) (Some 0%float) in
  let imported :=
    run_actions (mkStore [record_A 1%float] empty_form "1")
                [(responsive_world 1700000000900 400, ChooseFile (ArrayOf [entry]))] in
  (map id (addresses created) = [Some 1700000000000%Z; Some 1700000000000%Z]
   /\ NoDup (map publicKey (addresses created))
   /\ ~ unique_ids (addresses created))
  /\ (map id (addresses imported) = [Some 1700000000000%Z; Some 1700000000000%Z]
      /\ map publicKey (addresses imported) = [Some address_A; Some address_B]
      /\ ~ unique_ids (addresses imported)).
Proof.
  cbv zeta.
  assert (Hshared : ~ NoDup [Some 1700000000000%Z; Some 1700000000000%Z]).
  { intro H. inversion H as [|? ? Hnotin _]. apply Hnotin. left; reflexivity. }
  split; (split; [reflexivity|split]).
  - vm_compute. constructor; [|repeat constructor; intros []].
    intros [H|[]]. discriminate H.
  - exact Hshared.
  - reflexivity.
  - exact Hshared.
Qed.

Lemma all_have_id_ids l : all_have_id l <-> Forall (fun i => i <> None) (map id l).
Proof. unfold all_have_id. rewrite Forall_map. reflexivity. Qed.

Lemma well_formed_entry_has_id addr : well_formed_entry addr = true -> id addr <> None.
Proof.
  unfold well_formed_entry, fields_present. intros H Hnone. rewrite Hnone in H.
  cbn in H. rewrite !andb_false_r in H. discriminate H.
Qed.

(** Every action leaves an address book whose records all carry an id in
    that condition: the books the component builds from an empty one are
    those the rejection of an invalid amount is stated for. *)
Lemma step_keeps_all_have_id s wa :
  all_have_id (addresses s) -> all_have_id (addresses (step s wa)).
Proof.
  destruct wa as [W a]. rewrite !all_have_id_ids. unfold step, handle.
  cbn [fst snd]. intro Hall.
  destruct a as [|id0|id0|id0|id0| |payload|td|text]; cbn [start store].
  - cbn. rewrite map_app. apply Forall_app. split; [exact Hall|].
    repeat constructor. discriminate.
  - cbn. rewrite Forall_forall in *. intros x Hx. apply Hall.
    apply in_map_iff in Hx. destruct Hx as (addr & <- & Hin).
    apply filter_In in Hin. apply in_map. tauto.
  - cbn. rewrite map_id_toggled. exact Hall.
  - rewrite refreshBalance_run. cbn. rewrite map_id_refreshed. exact Hall.
  - rewrite requestAirdrop_ids. exact Hall.
  - rewrite transferSOL_ids. exact Hall.
  - rewrite loadKeypairs_addresses, map_app. apply Forall_app.
    split; [exact Hall|].
    rewrite Forall_forall. intros x Hx.
    apply in_map_iff in Hx. destruct Hx as (addr & <- & Hin).
    apply well_formed_entry_has_id.
    exact (appended_by_import_well_formed s payload addr Hin).
  - exact Hall.
  - exact Hall.
Qed.

Lemma run_actions_all_have_id l :
  forall s, all_have_id (addresses s) -> all_have_id (addresses (run_actions s l)).
Proof.
  induction l as [|wa rest IH]; intros s Hall; [exact Hall|].
  cbn [run_actions fold_left]. apply IH. apply step_keeps_all_have_id. exact Hall.
Qed.

(** A transfer to an address that parses but lies off the curve, in a
    world whose curve check fails: stage 3 rejects it. *)
Example transfer_off_curve_destination :
  let W := responsive_world 1700000000500 400 in
  let off_curve :=
    mkWorld (Date_now W) (Keypair_generate W) (fun _ => false)
            (Keypair_fromSecretKey W) (SystemProgram_transfer W) (Transaction_sign W)
            (connection_getBalance W) (connection_getLatestBlockhash W)
            (connection_sendRawTransaction W) (connection_confirmTransaction W)
            (connection_requestAirdrop W) in
  let l := [record_A 1%float] in
  let td := mkTransferData "1700000000000" address_B "0.5" in
  transferSOL off_curve l td (start (mkStore l td "1"))
  = (Returned tt,
     mkRun (mkStore l td "1")
           [NewPublicKey (Some address_B);
            IsOnCurve (repeat x00 31 ++ [x01]);
            Alert "Invalid destination address"]).
Proof. reflexivity. Qed.

(** The whole of a successful transfer, as the calls it makes. *)
Example transfer_success_trace :
  let W := responsive_world 1700000000500 400 in
  let l := [record_A 1%float] in
  let td := mkTransferData "1700000000000" address_B "0.5" in
  map is_ledger_call (trace (snd (transferSOL W l td (start (mkStore l td "1")))))
  = [false; false; false; false; false; true; false; true; true; false; false;
     false; true]
  /\ addresses (store (snd (transferSOL W l td (start (mkStore l td "1")))))
     = [record_A 5%float]
  /\ transferData (store (snd (transferSOL W l td (start (mkStore l td "1")))))
     = empty_form.
Proof. repeat split; reflexivity. Qed.

(* ===================================================================== *)
(** * Round trip of the base58 codec *)
(* ===================================================================== *)

Lemma byte_of_Z_of_byte b : Base58.byte_of_Z (Base58.Z_of_byte b) = b.
Proof. destruct b; reflexivity. Qed.

Lemma Z_of_byte_range b : (0 <= Base58.Z_of_byte b < 256)%Z.
Proof.
  unfold Base58.Z_of_byte. pose proof (Byte.to_N_bounded b). lia.
Qed.

Lemma Z_of_byte_zero b : Base58.Z_of_byte b = 0%Z -> b = x00.
Proof.
  intro H. rewrite <- (byte_of_Z_of_byte b), H. reflexivity.
Qed.

Lemma leading_zeroes_split bs :
  bs = repeat x00 (fst (Base58.leading_zeroes bs)) ++ snd (Base58.leading_zeroes bs)
  /\ no_leading_zero (snd (Base58.leading_zeroes bs)).
Proof.
  induction bs as [|b rest [IH1 IH2]]; cbn; [auto|].
  destruct (Byte.eqb b x00) eqn:Hb.
  - apply Byte.byte_dec_bl in Hb. subst b.
    destruct (Base58.leading_zeroes rest) as [n t]. cbn in *.
    split; [f_equal; exact IH1|exact IH2].
  - cbn. split; [reflexivity|]. intros ->. discriminate Hb.
Qed.

Lemma Z_of_bytes_snoc bs b :
  Base58.Z_of_bytes (bs ++ [b])
  = (Base58.Z_of_bytes bs * 256 + Base58.Z_of_byte b)%Z.
Proof. unfold Base58.Z_of_bytes. rewrite fold_left_app. reflexivity. Qed.

Lemma Z_of_bytes_nonneg bs : (0 <= Base58.Z_of_bytes bs)%Z.
Proof.
  induction bs as [|b rest IH] using rev_ind; [cbn; lia|].
  rewrite Z_of_bytes_snoc. pose proof (Z_of_byte_range b). lia.
Qed.

Lemma no_leading_zero_snoc bs b :
  no_leading_zero (bs ++ [b]) -> no_leading_zero bs.
Proof. destruct bs; cbn; auto. Qed.

(** The number a byte list without leading zero writes in base 256 has at
    least as many bytes as the list. *)
Lemma Z_of_bytes_lower bs :
  no_leading_zero bs -> bs <> [] ->
  (256 ^ Z.of_nat (length bs - 1) <= Base58.Z_of_bytes bs)%Z.
Proof.
  induction bs as [|b rest IH] using rev_ind; intros Hlead Hne; [contradiction|].
  rewrite Z_of_bytes_snoc, length_app. cbn [length].
  pose proof (Z_of_byte_range b) as Hb.
  destruct rest as [|c rest'].
  - cbn in *. assert (Base58.Z_of_byte b <> 0%Z) by (intro H0; apply Hlead, Z_of_byte_zero, H0).
    lia.
  - specialize (IH (no_leading_zero_snoc _ _ Hlead) ltac:(discriminate)).
    replace (length (c :: rest') + 1 - 1)%nat with (S (length (c :: rest') - 1))
      by (cbn; lia).
    rewrite Nat2Z.inj_succ, Z.pow_succ_r by lia. lia.
Qed.

Lemma be_bytes_of_bytes bs :
  no_leading_zero bs ->
  forall fuel acc,
    (length bs <= fuel)%nat ->
    Base58.be_bytes fuel (Base58.Z_of_bytes bs) acc = bs ++ acc.
Proof.
  induction bs as [|b rest IH] using rev_ind; intros Hlead fuel acc Hfuel.
  - destruct fuel; reflexivity.
  - rewrite length_app in Hfuel. cbn [length] in Hfuel.
    destruct fuel as [|fuel]; [lia|].
    rewrite Z_of_bytes_snoc. pose proof (Z_of_byte_range b) as Hb.
    pose proof (Z_of_bytes_nonneg rest) as Hrest.
    assert (Hpos : (0 < Base58.Z_of_bytes rest * 256 + Base58.Z_of_byte b)%Z).
    { destruct rest as [|c rest'].
      - cbn in *.
        assert (Base58.Z_of_byte b <> 0%Z)
          by (intro H0; apply Hlead, Z_of_byte_zero, H0).
        lia.
      - pose proof (Z_of_bytes_lower (c :: rest') (no_leading_zero_snoc _ _ Hlead)
                                     ltac:(discriminate)) as Hlow.
        assert (0 < 256 ^ Z.of_nat (length (c :: rest') - 1))%Z
          by (apply Z.pow_pos_nonneg; lia).
        lia. }
    cbn [Base58.be_bytes].
    destruct (Z.leb_spec (Base58.Z_of_bytes rest * 256 + Base58.Z_of_byte b) 0); [lia|].
    replace ((Base58.Z_of_bytes rest * 256 + Base58.Z_of_byte b) / 256)%Z
      with (Base58.Z_of_bytes rest)
      by (apply Z.div_unique with (r := Base58.Z_of_byte b); lia).
    replace ((Base58.Z_of_bytes rest * 256 + Base58.Z_of_byte b) mod 256)%Z
      with (Base58.Z_of_byte b)
      by (apply Z.mod_unique with (q := Base58.Z_of_bytes rest); lia).
    rewrite byte_of_Z_of_byte.
    rewrite (IH (no_leading_zero_snoc _ _ Hlead)) by lia.
    rewrite <- app_assoc. reflexivity.
Qed.

Lemma bytes_of_Z_of_bytes bs :
  no_leading_zero bs -> Base58.bytes_of_Z (Base58.Z_of_bytes bs) = bs.
Proof.
  intro Hlead. unfold Base58.bytes_of_Z.
  rewrite (be_bytes_of_bytes bs Hlead); [apply app_nil_r|].
  destruct bs as [|b rest]; [cbn; lia|].
  pose proof (Z_of_bytes_lower (b :: rest) Hlead ltac:(discriminate)) as Hlow.
  assert (Hlog : (Z.of_nat (length (b :: rest) - 1)
                  <= Z.log2 (Base58.Z_of_bytes (b :: rest)))%Z).
  { apply Z.log2_le_pow2.
    - assert (0 < 256 ^ Z.of_nat (length (b :: rest) - 1))%Z
        by (apply Z.pow_pos_nonneg; lia).
      lia.
    - eapply Z.le_trans; [|exact Hlow].
      apply Z.pow_le_mono_l. lia. }
  cbn [length] in *. lia.
Qed.

Lemma value_app s1 s2 acc :
  Base58.value acc (s1 ++ s2)%string
  = match Base58.value acc s1 with
    | Some v => Base58.value v s2
    | None => None
    end.
Proof.
  revert acc. induction s1 as [|c r IH]; intro acc;
    cbn [Base58.value String.append]; [reflexivity|].
  destruct (Base58.digit c); [apply IH|reflexivity].
Qed.

Lemma string_append_assoc (a b c : string) :
  ((a ++ b) ++ c)%string = (a ++ b ++ c)%string.
Proof. induction a as [|x r IH]; cbn; [reflexivity|]. rewrite IH. reflexivity. Qed.

Lemma digits_of_Z_acc fuel n acc :
  Base58.digits_of_Z fuel n acc
  = (Base58.digits_of_Z fuel n EmptyString ++ acc)%string.
Proof.
  revert n acc. induction fuel as [|fuel IH]; intros n acc; cbn; [reflexivity|].
  destruct (n <=? 0)%Z; [reflexivity|].
  rewrite IH, (IH _ (String _ EmptyString)).
  rewrite string_append_assoc. reflexivity.
Qed.

Lemma small_digit_cases (d : Z) (P : Z -> Prop) :
  (0 <= d < 58)%Z ->
  (forall k, (k < 58)%nat -> P (Z.of_nat k)) -> P d.
Proof.
  intros Hd H. rewrite <- (Z2Nat.id d) by lia. apply H. lia.
Qed.

Lemma digit_char_of_digit d :
  (0 <= d < 58)%Z -> Base58.digit (Base58.char_of_digit d) = Some d.
Proof.
  intro Hd. apply (small_digit_cases d); [exact Hd|].
  intros k Hk. do 58 (destruct k as [|k]; [reflexivity|]). lia.
Qed.

Lemma char_of_digit_not_one d :
  (0 < d < 58)%Z -> Base58.char_of_digit d <> "1"%char.
Proof.
  intros [Hpos Hlt]. assert (Hd : (0 <= d < 58)%Z) by lia. revert Hpos.
  apply (small_digit_cases d (fun d => (0 < d)%Z -> Base58.char_of_digit d <> "1"%char));
    [exact Hd|].
  intros k Hk Hpos. destruct k as [|k]; [lia|].
  do 57 (destruct k as [|k]; [discriminate|]). lia.
Qed.

Lemma value_digits_of_Z fuel n :
  (0 <= n < 2 ^ Z.of_nat fuel)%Z ->
  Base58.value 0 (Base58.digits_of_Z fuel n EmptyString) = Some n.
Proof.
  revert n. induction fuel as [|fuel IH]; intros n Hn.
  - cbn in *. f_equal. lia.
  - cbn [Base58.digits_of_Z].
    destruct (Z.leb_spec n 0); [cbn; f_equal; lia|].
    rewrite digits_of_Z_acc, value_app.
    assert (Hdiv : (0 <= n / 58 < 2 ^ Z.of_nat fuel)%Z).
    { rewrite Nat2Z.inj_succ, Z.pow_succ_r in Hn by lia.
      split; [apply Z.div_pos; lia|].
      apply Z.div_lt_upper_bound; lia. }
    rewrite (IH _ Hdiv). cbn [Base58.value].
    pose proof (Z.mod_pos_bound n 58 ltac:(lia)) as Hmod.
    rewrite (digit_char_of_digit _ Hmod). f_equal.
    pose proof (Z.div_mod n 58 ltac:(lia)). lia.
Qed.

Lemma digits_of_Z_leading fuel n acc :
  (0 < n < 2 ^ Z.of_nat fuel)%Z ->
  ~ starts_with_one (Base58.digits_of_Z fuel n acc).
Proof.
  revert n acc. induction fuel as [|fuel IH]; intros n acc Hn; [cbn in Hn; lia|].
  cbn [Base58.digits_of_Z]. destruct (Z.leb_spec n 0); [lia|].
  destruct (Z.eq_dec (n / 58) 0) as [Hz|Hnz].
  - rewrite Hz.
    assert (Hstop : forall a, Base58.digits_of_Z fuel 0 a = a)
      by (intro a; destruct fuel; reflexivity).
    rewrite Hstop. cbn. apply char_of_digit_not_one.
    pose proof (Z.div_mod n 58 ltac:(lia)).
    pose proof (Z.mod_pos_bound n 58 ltac:(lia)). lia.
  - apply IH.
    rewrite Nat2Z.inj_succ, Z.pow_succ_r in Hn by lia.
    assert (0 <= n / 58)%Z by (apply Z.div_pos; lia).
    split; [lia|]. apply Z.div_lt_upper_bound; lia.
Qed.

Lemma leading_ones_stop s :
  ~ starts_with_one s -> Base58.leading_ones s = (O, s).
Proof.
  destruct s as [|c r]; [reflexivity|]. cbn [starts_with_one]. intro Hc.
  destruct c as [[] [] [] [] [] [] [] []]; try reflexivity.
  exfalso. apply Hc. reflexivity.
Qed.

Lemma leading_ones_ones z s :
  ~ starts_with_one s ->
  Base58.leading_ones (Base58.ones z ++ s)%string = (z, s).
Proof.
  intro Hs. induction z as [|z IH]; cbn.
  - apply leading_ones_stop. exact Hs.
  - rewrite IH. reflexivity.
Qed.

(** Decoding what [bs58.encode] wrote gives the bytes back. *)
Lemma decode_encode bs : Base58.decode (Base58.encode bs) = Ok bs.
Proof.
  unfold Base58.encode, Base58.decode.
  destruct (leading_zeroes_split bs) as [Hsplit Hlead].
  destruct (Base58.leading_zeroes bs) as [zeroes rest]. cbn [fst snd] in *.
  set (n := Base58.Z_of_bytes rest).
  assert (Hn : (0 <= n < 2 ^ Z.of_nat (S (Z.to_nat (Z.log2 n))))%Z).
  { pose proof (Z_of_bytes_nonneg rest). fold n in H. split; [exact H|].
    rewrite Nat2Z.inj_succ, Z2Nat.id by apply Z.log2_nonneg.
    destruct (Z.eq_dec n 0) as [->|]; [reflexivity|].
    apply Z.log2_spec. lia. }
  assert (Hstart : ~ starts_with_one
                     (Base58.digits_of_Z (S (Z.to_nat (Z.log2 n))) n EmptyString)).
  { destruct (Z.eq_dec n 0) as [Hz|Hnz].
    - rewrite Hz. cbn. auto.
    - apply digits_of_Z_leading. lia. }
  rewrite (leading_ones_ones _ _ Hstart), (value_digits_of_Z _ _ Hn).
  unfold n. rewrite (bytes_of_Z_of_bytes _ Hlead), <- Hsplit. reflexivity.
Qed.

(* ===================================================================== *)
(** * Creating, deleting and toggling records *)
(* ===================================================================== *)

Lemma id_eqb_eq a b : id_eqb a b = true <-> a = b.
Proof.
  destruct a as [x|], b as [y|]; cbn; try (split; congruence).
  rewrite Z.eqb_eq. split; congruence.
Qed.

Lemma id_eqb_refl a : id_eqb a a = true.
Proof. apply id_eqb_eq. reflexivity. Qed.

(** X1. [createSolanaAddress] makes no call and adds exactly one record
    after the records already there: its id is the clock reading, its
    balance 0, its private key hidden, and its two key texts decode back to
    the bytes of the generated keypair. *)
Theorem create_appends_decodable_record W s :
  exists addr,
    createSolanaAddress W (start s)
    = (Returned tt,
       mkRun (mkStore (addresses s ++ [addr]) (transferData s) (faucetAmount s)) [])
    /\ id addr = Some (Date_now W)
    /\ balance addr = Some zero
    /\ showPrivate addr = Some false
    /\ bs58_decode_value (publicKey addr) = Ok (kp_publicKey (Keypair_generate W))
    /\ bs58_decode_value (privateKey addr) = Ok (kp_secretKey (Keypair_generate W)).
Proof.
  eexists. split; [reflexivity|]. cbn [id balance showPrivate publicKey privateKey].
  repeat split; apply decode_encode.
Qed.

(** X2. When key generation gives a 32-byte public key and a 64-byte
    secret key and the clock does not read 0, the record that
    [createSolanaAddress] adds passes the validation of an imported file. *)
Theorem created_record_passes_import_validation W s :
  length (kp_publicKey (Keypair_generate W)) = 32%nat ->
  length (kp_secretKey (Keypair_generate W)) = 64%nat ->
  Date_now W <> 0%Z ->
  exists addr,
    addresses (store (snd (createSolanaAddress W (start s)))) = addresses s ++ [addr]
    /\ well_formed_entry addr = true.
Proof.
  intros Hpk Hsk Hnow. eexists. split; [reflexivity|].
  unfold well_formed_entry, fields_present, address_syntax_ok, secret_length_ok,
    PublicKey_of_text.
  cbn [id publicKey privateKey bs58_decode_value truthy_text truthy_id].
  rewrite !decode_encode, Hpk, Hsk.
  assert (Hne : forall bs n, length bs = S n ->
                  truthy_string (Base58.encode bs) = true).
  { intros bs n Hlen. unfold truthy_string.
    destruct (String.eqb_spec (Base58.encode bs) "") as [Hempty|]; [|reflexivity].
    pose proof (decode_encode bs) as Hdec. rewrite Hempty in Hdec.
    change (Base58.decode "") with (@Ok (list byte) []) in Hdec.
    injection Hdec as <-. discriminate Hlen. }
  rewrite (Hne _ _ Hpk), (Hne _ _ Hsk).
  destruct (Z.eqb_spec (Date_now W) 0); [contradiction|reflexivity].
Qed.

(** A creation in the sample world. *)
Lemma created_record_passes_import_validation_witness :
  let W := responsive_world 1700000000000 400 in
  let s := mkStore [record_A 1%float] empty_form "1" in
  exists addr,
    addresses (store (snd (createSolanaAddress W (start s)))) = addresses s ++ [addr]
    /\ well_formed_entry addr = true.
Proof.
  intros W s.
  apply (created_record_passes_import_validation W s); [reflexivity|reflexivity|].
  discriminate.
Defined.

(** X3. Any number of creations in a row leaves the records already there
    in place and adds one record per creation after them, in the order of
    the creations, each with the clock reading of its creation as id,
    balance 0 and a hidden private key. *)
Theorem creations_append_in_order s (worlds : list World) :
  exists added,
    addresses (run_actions s (map (fun W => (W, ClickCreate)) worlds))
    = addresses s ++ added
    /\ map id added = map (fun W => Some (Date_now W)) worlds
    /\ Forall (fun addr => balance addr = Some zero /\ showPrivate addr = Some false)
              added.
Proof.
  revert s. induction worlds as [|W rest IH]; intro s.
  - exists []. cbn. rewrite app_nil_r. auto.
  - cbn [map run_actions fold_left].
    destruct (IH (step s (W, ClickCreate))) as (added & Hafter & Hids & Hnew).
    unfold run_actions in Hafter. rewrite Hafter.
    eexists (_ :: added). split; [|split].
    + cbn. rewrite <- app_assoc. reflexivity.
    + cbn. f_equal. exact Hids.
    + constructor; [split; reflexivity|exact Hnew].
Qed.

(** X4. [deleteAddress] makes no call, removes exactly the records that
    carry the id and keeps all others; it changes nothing when no record
    carries the id, and deleting a second time changes nothing more. *)
Theorem delete_removes_exactly_the_id id0 s :
  let run := deleteAddress id0 (start s) in
  (forall addr,
      In addr (addresses (store (snd run)))
      <-> In addr (addresses s) /\ id addr <> id0)
  /\ (addresses (store (snd run)) = addresses s <-> ~ In id0 (map id (addresses s)))
  /\ deleteAddress id0 (snd run) = run
  /\ trace (snd run) = [].
Proof.
  cbv zeta. cbn [deleteAddress setAddresses setAddresses_value start store snd
                 addresses transferData faucetAmount trace].
  unfold deleteAddress, setAddresses, setAddresses_value. cbn.
  split; [|split; [|split; [|reflexivity]]].
  - intro addr. rewrite filter_In. split; intros [Hin Hid]; split; auto.
    + intro Heq. apply id_eqb_eq in Heq. rewrite Heq in Hid. discriminate Hid.
    + destruct (id_eqb (id addr) id0) eqn:Heq; [|reflexivity].
      apply id_eqb_eq in Heq. contradiction.
  - split.
    + intros Hsame Hin. apply in_map_iff in Hin. destruct Hin as (addr & Hid & Hin).
      rewrite <- Hsame in Hin. apply filter_In in Hin. destruct Hin as [_ Hneq].
      rewrite Hid, id_eqb_refl in Hneq. discriminate Hneq.
    + intro Hnot. induction (addresses s) as [|addr rest IH]; [reflexivity|].
      cbn. destruct (id_eqb (id addr) id0) eqn:Heq.
      * apply id_eqb_eq in Heq. exfalso. apply Hnot. left. exact Heq.
      * cbn. f_equal. apply IH. intro Hin. apply Hnot. right. exact Hin.
  - f_equal. f_equal. f_equal.
    induction (addresses s) as [|addr rest IH]; [reflexivity|].
    cbn. destruct (id_eqb (id addr) id0) eqn:Heq; cbn; [exact IH|].
    rewrite Heq. cbn. f_equal. exact IH.
Qed.

(** X5. A creation at a clock reading that is no id of the address book,
    followed by the deletion of that id, gives back the address book as it
    was. *)
Theorem create_then_delete_restores W W' s :
  ~ In (Some (Date_now W)) (map id (addresses s)) ->
  addresses (run_actions s [(W, ClickCreate); (W', ClickDelete (Some (Date_now W)))])
  = addresses s.
Proof.
  intro Hfresh. cbn. rewrite filter_app. cbn. rewrite Z.eqb_refl. cbn.
  rewrite app_nil_r.
  induction (addresses s) as [|addr rest IH]; [reflexivity|].
  cbn. destruct (id_eqb (id addr) (Some (Date_now W))) eqn:Heq.
  - apply id_eqb_eq in Heq. exfalso. apply Hfresh. left. exact Heq.
  - cbn. f_equal. apply IH. intro Hin. apply Hfresh. right. exact Hin.
Qed.

(** A creation one second after the one record of the book. *)
Lemma create_then_delete_restores_witness :
  let W := responsive_world 1700000001000 400 in
  let s := mkStore [record_A 1%float] empty_form "1" in
  addresses (run_actions s [(W, ClickCreate); (W, ClickDelete (Some (Date_now W)))])
  = addresses s.
Proof.
  intros W s. apply (create_then_delete_restores W W s).
  cbn. intros [H|[]]. discriminate H.
Defined.

(** X6. [togglePrivateKey] makes no call and keeps the number and order of
    the records and their id, keys and balance; it inverts the visibility
    of every record that carries the id and of no other. *)
Theorem toggle_touches_only_visibility id0 s :
  let after := addresses (store (snd (togglePrivateKey id0 (start s)))) in
  map id after = map id (addresses s)
  /\ map publicKey after = map publicKey (addresses s)
  /\ map privateKey after = map privateKey (addresses s)
  /\ map balance after = map balance (addresses s)
  /\ map shown after
     = map (fun addr => if id_eqb (id addr) id0 then negb (shown addr) else shown addr)
           (addresses s)
  /\ trace (snd (togglePrivateKey id0 (start s))) = [].
Proof.
  cbv zeta. unfold togglePrivateKey, setAddresses, setAddresses_value. cbn.
  rewrite !map_map.
  repeat split; apply map_ext; intro addr;
    destruct (id_eqb (id addr) id0); reflexivity.
Qed.

(** X7. Toggling the same id twice gives back the address book as it was,
    provided the records that carry the id have a [showPrivate] field. *)
Theorem toggle_twice_restores id0 s :
  (forall addr, In addr (addresses s) -> id addr = id0 -> showPrivate addr <> None) ->
  addresses (store (snd (togglePrivateKey id0 (snd (togglePrivateKey id0 (start s))))))
  = addresses s.
Proof.
  intro Hfield. unfold togglePrivateKey, setAddresses, setAddresses_value. cbn.
  rewrite map_map. rewrite <- (map_id (addresses s)) at 2.
  apply map_ext_in. intros addr Hin.
  destruct (id_eqb (id addr) id0) eqn:Heq; cbn [id with_showPrivate]; rewrite Heq;
    [|reflexivity].
  apply id_eqb_eq in Heq. specialize (Hfield addr Hin Heq).
  destruct addr as [i pk sk [b|] bal]; [|contradiction].
  cbn. rewrite negb_involutive. reflexivity.
Qed.

(** Two clicks on Show for the one record of the book. *)
Lemma toggle_twice_restores_witness :
  let s := mkStore [record_A 1%float] empty_form "1" in
  let id0 := Some 1700000000000%Z in
  addresses (store (snd (togglePrivateKey id0 (snd (togglePrivateKey id0 (start s))))))
  = addresses s.
Proof.
  intros s id0. apply (toggle_twice_restores id0 s).
  intros addr [<-|[]] _. discriminate.
Defined.

(* ===================================================================== *)
(** * More on the balance refresh *)
(* ===================================================================== *)

Lemma refresh_calls_absent W id0 l :
  ~ In id0 (map id l) -> refresh_calls W id0 l = [] /\ map (refreshed W id0) l = l.
Proof.
  induction l as [|addr rest IH]; intro Hnot; [split; reflexivity|].
  cbn [map refresh_calls flat_map]. unfold refreshed at 1.
  destruct (id_eqb (id addr) id0) eqn:Heq.
  - apply id_eqb_eq in Heq. exfalso. apply Hnot. left. exact Heq.
  - destruct IH as [Hcalls Hmap]; [intro Hin; apply Hnot; right; exact Hin|].
    unfold refresh_calls in Hcalls. rewrite Hcalls, Hmap. split; reflexivity.
Qed.

(** X8. A refresh for an id that no record of the closed-over list carries
    makes no call at all and writes that list back as it is. *)
Theorem refresh_of_absent_id_is_silent W l id0 s :
  ~ In id0 (map id l) ->
  refreshBalance W l id0 (start s)
  = (Returned tt, mkRun (mkStore l (transferData s) (faucetAmount s)) []).
Proof.
  intro Hnot. rewrite refreshBalance_run.
  destruct (refresh_calls_absent W id0 l Hnot) as [-> ->]. reflexivity.
Qed.

(** A refresh for an id that was never given out. *)
Lemma refresh_of_absent_id_witness :
  let l := [record_A 1%float] in
  let s := mkStore l empty_form "1" in
  refreshBalance (responsive_world 1700000000500 400) l (Some 42%Z) (start s)
  = (Returned tt, mkRun s []).
Proof.
  intros l s.
  apply (refresh_of_absent_id_is_silent (responsive_world 1700000000500 400) l
                                        (Some 42%Z) s).
  cbn. intros [H|[]]. discriminate H.
Defined.

(** X9. A refresh keeps the number and order of the records of the
    closed-over list and their id, keys and visibility, and leaves every
    record of another id untouched; a record of the refreshed id whose
    address parses and whose lookup the ledger answers with [lamports] gets
    the balance [lamports / LAMPORTS_PER_SOL]. *)
Theorem refresh_touches_only_balances W l id0 s :
  let after := addresses (store (snd (refreshBalance W l id0 (start s)))) in
  map id after = map id l
  /\ map publicKey after = map publicKey l
  /\ map privateKey after = map privateKey l
  /\ map showPrivate after = map showPrivate l
  /\ (forall i addr,
         nth_error l i = Some addr -> id addr <> id0 -> nth_error after i = Some addr)
  /\ (forall i addr bytes lamports,
         nth_error l i = Some addr -> id addr = id0 ->
         PublicKey_of_text (publicKey addr) = Ok bytes ->
         connection_getBalance W bytes = Ok lamports ->
         nth_error after i
         = Some (with_balance addr (lamports / LAMPORTS_PER_SOL)%float)).
Proof.
  cbv zeta. rewrite refreshBalance_run. cbn [snd store addresses].
  rewrite !map_map.
  split; [|split; [|split; [|split; [|split]]]].
  1-4: apply map_ext; intro addr; unfold refreshed;
       destruct (id_eqb (id addr) id0); reflexivity.
  - intros i addr Hnth Hid. rewrite nth_error_map, Hnth. cbn. unfold refreshed.
    destruct (id_eqb (id addr) id0) eqn:Heq; [|reflexivity].
    apply id_eqb_eq in Heq. contradiction.
  - intros i addr bytes lamports Hnth Hid Hkey Hbal.
    rewrite nth_error_map, Hnth. cbn. unfold refreshed, looked_up.
    rewrite Hid, id_eqb_refl, Hkey, Hbal. reflexivity.
Qed.

(** The refresh of the one record of the book, which the ledger answers
    with 5,000,000,000 lamports. *)
Lemma refresh_touches_only_balances_witness :
  let W := responsive_world 1700000000500 400 in
  let l := [record_A 1%float] in
  let s := mkStore l empty_form "1" in
  nth_error (addresses (store (snd (refreshBalance W l (Some 1700000000000%Z) (start s)))))
            0
  = Some (with_balance (record_A 1%float) (5000000000 / LAMPORTS_PER_SOL)%float).
Proof.
  intros W l s.
  apply (proj2 (proj2 (proj2 (proj2 (proj2
           (refresh_touches_only_balances W l (Some 1700000000000%Z) s)))))
           0%nat (record_A 1%float) (repeat x00 32) 5000000000%float);
    reflexivity.
Defined.

(** X10. When a refresh comes back, the list it has written into the
    state is the list its handler closed over, with balances refreshed,
    whatever the state held by then: its ids are those of the closed-over
    list, so a record added since, under an id of its own, is gone, and a
    record deleted since is back. The transfer form and the faucet amount
    are those of the state. *)
Theorem refresh_writes_back_closed_over_list W l id0 (r : Run) :
  fst (refreshBalance W l id0 r) = Returned tt ->
  let after := addresses (store (snd (refreshBalance W l id0 r))) in
  map id after = map id l
  /\ (forall addr,
         In addr (addresses (store r)) -> ~ In (id addr) (map id l) -> ~ In addr after)
  /\ (forall addr, In addr l -> In (id addr) (map id after))
  /\ transferData (store (snd (refreshBalance W l id0 r))) = transferData (store r)
  /\ faucetAmount (store (snd (refreshBalance W l id0 r))) = faucetAmount (store r).
Proof.
  intros _. cbv zeta. rewrite refreshBalance_run.
  cbn [snd store addresses transferData faucetAmount].
  rewrite map_id_refreshed. repeat split.
  - intros addr _ Hnew Hin. apply Hnew.
    rewrite <- (map_id_refreshed W id0 l). apply in_map. exact Hin.
  - intros addr Hin. apply in_map. exact Hin.
Qed.

(** A refresh started from a render that showed one record, while the
    state has come to hold a second one: the refresh comes back, and the
    second record is gone. *)
Lemma refresh_writes_back_closed_over_list_witness :
  let W := responsive_world 1700000000500 400 in
  let added := mkRecord (Some 1700000000400%Z) (Some address_B) (Some secret_64)
                        (Some false) (Some 0%float) in
  let l := [record_A 1%float] in
  let s := mkStore [record_A 1%float; added] empty_form "1" in
  In added (addresses s)
  /\ fst (refreshBalance W l (Some 1700000000000%Z) (start s)) = Returned tt
  /\ ~ In added (addresses (store (snd (refreshBalance W l (Some 1700000000000%Z) (start s))))).
Proof.
  intros W added l s. split; [right; left; reflexivity|].
  assert (Hback : fst (refreshBalance W l (Some 1700000000000%Z) (start s)) = Returned tt)
    by reflexivity.
  split; [exact Hback|].
  apply (proj1 (proj2 (refresh_writes_back_closed_over_list
                         W l (Some 1700000000000%Z) (start s) Hback)) added).
  - right; left; reflexivity.
  - intros [H|[]]. discriminate H.
Defined.

(* ===================================================================== *)
(** * More on the faucet request *)
(* ===================================================================== *)

Lemma find_absent_id l id0 :
  ~ In id0 (map id l) -> find (fun item => id_eqb (id item) id0) l = None.
Proof.
  induction l as [|addr rest IH]; intro Hnot; [reflexivity|].
  cbn. destruct (id_eqb (id addr) id0) eqn:Heq.
  - apply id_eqb_eq in Heq. exfalso. apply Hnot. left. exact Heq.
  - apply IH. intro Hin. apply Hnot. right. exact Hin.
Qed.

Lemma alerts_refresh_calls W id0 l : alerts (refresh_calls W id0 l) = [].
Proof.
  induction l as [|addr rest IH]; [reflexivity|].
  cbn [refresh_calls flat_map]. rewrite alerts_app. unfold refresh_calls in IH.
  rewrite IH, app_nil_r.
  destruct (id_eqb (id addr) id0); [|reflexivity].
  unfold getBalance_calls.
  destruct (PublicKey_of_text (publicKey addr)) as [bytes|e];
    [destruct (connection_getBalance W bytes)|]; reflexivity.
Qed.

Lemma ltb_nan_r (x y : float) : is_nan y = true -> (x <? y)%float = false.
Proof.
  intro Hnan. rewrite ltb_spec. unfold Prim2SF at 2. rewrite Hnan.
  unfold SFltb, SFcompare. destruct (Prim2SF x); reflexivity.
Qed.

(** X11. A faucet request for an id that no record carries returns at
    once: no call, no alert, the state as it was. *)
Theorem airdrop_of_absent_id_is_silent W l text id0 s :
  ~ In id0 (map id l) ->
  requestAirdrop W l text id0 (start s) = (Returned tt, mkRun s []).
Proof.
  intro Hnot. unfold requestAirdrop, try_catch.
  rewrite (find_absent_id l id0 Hnot). reflexivity.
Qed.

(** A faucet request for an id that was never given out. *)
Lemma airdrop_of_absent_id_witness :
  let l := [record_A 1%float] in
  let s := mkStore l empty_form "1" in
  requestAirdrop (responsive_world 1700000000500 400) l "1" (Some 42%Z) (start s)
  = (Returned tt, mkRun s []).
Proof.
  intros l s.
  apply (airdrop_of_absent_id_is_silent (responsive_world 1700000000500 400) l "1"
                                        (Some 42%Z) s).
  cbn. intros [H|[]]. discriminate H.
Defined.

(** X12. The cap only stops amounts that compare greater than 2. An
    amount text that does not read as a number, or that is not greater
    than 2 (a negative one, say), goes to the ledger: the first call after
    the address is parsed is [requestAirdrop] with the amount times
    [LAMPORTS_PER_SOL]. *)
Theorem airdrop_cap_lets_other_amounts_through W l text id0 s targetAddr bytes :
  find (fun item => id_eqb (id item) id0) l = Some targetAddr ->
  PublicKey_of_text (publicKey targetAddr) = Ok bytes ->
  Number.isNaN (Number.parseFloat text) = true
  \/ (2 <? Number.parseFloat text)%float = false ->
  exists rest,
    trace (snd (requestAirdrop W l text id0 (start s)))
    = NewPublicKey (publicKey targetAddr)
      :: RequestAirdrop bytes (Number.parseFloat text * LAMPORTS_PER_SOL)%float
      :: rest.
Proof.
  intros Hfind Hkey Hamount.
  assert (Hcap : (2 <? Number.parseFloat text)%float = false).
  { destruct Hamount as [Hnan|Hle]; [apply ltb_nan_r; exact Hnan|exact Hle]. }
  unfold_handler. rewrite Hfind, Hkey. cbn [app]. rewrite Hcap.
  repeat (first [rewrite refreshBalance_run | split_match];
          cbn [app store trace fst snd]).
  all: eexists; reflexivity.
Qed.

(** The faucet request with the amount field left empty. *)
Lemma airdrop_cap_lets_other_amounts_through_witness :
  let l := [record_A 1%float] in
  let s := mkStore l empty_form "" in
  let id0 := Some 1700000000000%Z in
  let W := responsive_world 1700000000500 400 in
  exists rest,
    trace (snd (requestAirdrop W l "" id0 (start s)))
    = NewPublicKey (Some address_A)
      :: RequestAirdrop (repeat x00 32) (Number.parseFloat "" * LAMPORTS_PER_SOL)%float
      :: rest.
Proof.
  intros l s id0 W.
  apply (airdrop_cap_lets_other_amounts_through W l "" id0 s (record_A 1%float)
                                                (repeat x00 32)).
  - reflexivity.
  - reflexivity.
  - left. reflexivity.
Defined.

(** X13. The faucet request sets no timer: when the ledger accepts the
    request and the confirmation never settles, the handler never comes
    back, shows no alert and leaves the state as it was. *)
Theorem airdrop_waits_without_timeout W l text id0 s targetAddr bytes signature :
  find (fun item => id_eqb (id item) id0) l = Some targetAddr ->
  PublicKey_of_text (publicKey targetAddr) = Ok bytes ->
  (2 <? Number.parseFloat text)%float = false ->
  connection_requestAirdrop W bytes (Number.parseFloat text * LAMPORTS_PER_SOL)%float
  = Ok signature ->
  connection_confirmTransaction W signature = NeverSettles ->
  requestAirdrop W l text id0 (start s)
  = (Unsettled,
     mkRun s [NewPublicKey (publicKey targetAddr);
              RequestAirdrop bytes (Number.parseFloat text * LAMPORTS_PER_SOL)%float;
              ConfirmTransaction signature]).
Proof.
  intros Hfind Hkey Hcap Hreq Hconf.
  unfold_handler. rewrite Hfind, Hkey. cbn [app]. rewrite Hcap, Hreq. cbn [app].
  rewrite Hconf. reflexivity.
Qed.

(** A faucet request of 1 SOL whose confirmation never arrives. *)
Lemma airdrop_waits_without_timeout_witness :
  let l := [record_A 1%float] in
  let s := mkStore l empty_form "1" in
  let id0 := Some 1700000000000%Z in
  let W := silent_world 1700000000500 in
  fst (requestAirdrop W l "1" id0 (start s)) = Unsettled
  /\ alerts (trace (snd (requestAirdrop W l "1" id0 (start s)))) = []
  /\ store (snd (requestAirdrop W l "1" id0 (start s))) = s.
Proof.
  intros l s id0 W.
  rewrite (airdrop_waits_without_timeout W l "1" id0 s (record_A 1%float)
             (repeat x00 32) "5VERv8NMvzbJMEkV8xnrLkEaWRtSz9CosKDYjCJjBRnb"
             eq_refl eq_refl eq_refl eq_refl eq_refl).
  repeat split.
Defined.

(** X14. The faucet request does not look at what the confirmation says:
    once the confirmation is fulfilled, with or without an on-chain error,
    the alert of success is shown, and no other alert. *)
Theorem airdrop_ignores_confirmation_verdict
        W l text id0 s targetAddr bytes signature ms verdict :
  find (fun item => id_eqb (id item) id0) l = Some targetAddr ->
  PublicKey_of_text (publicKey targetAddr) = Ok bytes ->
  (2 <? Number.parseFloat text)%float = false ->
  connection_requestAirdrop W bytes (Number.parseFloat text * LAMPORTS_PER_SOL)%float
  = Ok signature ->
  connection_confirmTransaction W signature = SettlesAt ms (Ok verdict) ->
  alerts (trace (snd (requestAirdrop W l text id0 (start s))))
  = [("Airdrop successful! Signature: " ++ signature)%string].
Proof.
  intros Hfind Hkey Hcap Hreq Hconf.
  unfold_handler. rewrite Hfind, Hkey. cbn [app]. rewrite Hcap, Hreq. cbn [app].
  rewrite Hconf, refreshBalance_run. cbn [fst snd trace].
  rewrite alerts_app, alerts_refresh_calls. reflexivity.
Qed.

(** A faucet request whose confirmation reports an on-chain error. *)
Lemma airdrop_ignores_confirmation_verdict_witness :
  let l := [record_A 1%float] in
  let s := mkStore l empty_form "1" in
  let id0 := Some 1700000000000%Z in
  let W := with_confirmation (responsive_world 1700000000500 400)
             (fun _ => SettlesAt 400 (Ok (Some (json_string "AccountInUse")))) in
  alerts (trace (snd (requestAirdrop W l "1" id0 (start s))))
  = ["Airdrop successful! Signature: 5VERv8NMvzbJMEkV8xnrLkEaWRtSz9CosKDYjCJjBRnb"].
Proof.
  intros l s id0 W.
  apply (airdrop_ignores_confirmation_verdict W l "1" id0 s (record_A 1%float)
           (repeat x00 32) "5VERv8NMvzbJMEkV8xnrLkEaWRtSz9CosKDYjCJjBRnb" 400
           (Some (json_string "AccountInUse"))); reflexivity.
Defined.

(** X15. A faucet request shows at most one alert, and it changes the
    state only when that alert is the one of success. *)
Theorem airdrop_changes_state_only_on_success W l text id0 s :
  (length (alerts (trace (snd (requestAirdrop W l text id0 (start s))))) <= 1)%nat
  /\ (store (snd (requestAirdrop W l text id0 (start s))) = s
      \/ exists shown_text,
          alerts (trace (snd (requestAirdrop W l text id0 (start s)))) = [shown_text]
          /\ is_airdrop_success shown_text = true).
Proof.
  run_handler.
  all: cbn [alerts app length]; rewrite ?alerts_app, ?alerts_refresh_calls;
       cbn [alerts app length].
  all: split; [lia|].
  all: try (left; reflexivity).
  right. eexists. split; [reflexivity|]. unfold is_airdrop_success. cbn.
  match goal with |- String.prefix "" ?x = true => destruct x; reflexivity end.
Qed.

(* ===================================================================== *)
(** * More on the transfer *)
(* ===================================================================== *)

Lemma prefix_nil (s : string) : String.prefix "" s = true.
Proof. destruct s; reflexivity. Qed.

(** X16. Whatever the form holds and whatever the world answers,
    [transferSOL] lets no exception out and shows at most one alert; when
    it comes back, it has shown exactly one. *)
Theorem transfer_shows_at_most_one_alert W l td s :
  (forall e, fst (transferSOL W l td (start s)) <> Thrown e)
  /\ (length (alerts (trace (snd (transferSOL W l td (start s))))) <= 1)%nat
  /\ (fst (transferSOL W l td (start s)) = Returned tt ->
      length (alerts (trace (snd (transferSOL W l td (start s))))) = 1%nat).
Proof.
  destruct td as [f t a]. run_handler.
  all: cbn [alerts app length fst]; rewrite ?alerts_app, ?alerts_refresh_calls;
       cbn [alerts app length].
  all: repeat split; try discriminate; try lia.
Qed.

(** A transfer that goes through: the handler comes back, with one
    alert shown. *)
Lemma transfer_shows_at_most_one_alert_witness :
  let W := responsive_world 1700000000500 400 in
  let l := [record_A 1%float] in
  let td := mkTransferData "1700000000000" address_B "0.5" in
  let s := mkStore l td "1" in
  fst (transferSOL W l td (start s)) = Returned tt
  /\ length (alerts (trace (snd (transferSOL W l td (start s))))) = 1%nat.
Proof.
  intros W l td s.
  assert (Hback : fst (transferSOL W l td (start s)) = Returned tt) by reflexivity.
  split; [exact Hback|].
  exact (proj2 (proj2 (transfer_shows_at_most_one_alert W l td s)) Hback).
Defined.

(** X17. A transfer changes the state only behind the alert of success:
    either the state is as before, or the one alert shown is the one of
    success, the form is cleared, the faucet amount is as before and the
    address book is the closed-over list with balances refreshed, its ids
    unchanged. *)
Theorem transfer_changes_state_only_on_success W l td s :
  store (snd (transferSOL W l td (start s))) = s
  \/ (exists shown_text,
         alerts (trace (snd (transferSOL W l td (start s)))) = [shown_text]
         /\ is_transfer_success shown_text = true)
     /\ transferData (store (snd (transferSOL W l td (start s)))) = empty_form
     /\ faucetAmount (store (snd (transferSOL W l td (start s)))) = faucetAmount s
     /\ map id (addresses (store (snd (transferSOL W l td (start s))))) = map id l.
Proof.
  destruct td as [f t a]. run_handler.
  all: cbn [alerts app]; rewrite ?alerts_app, ?alerts_refresh_calls;
       cbn [alerts app store snd transferData faucetAmount addresses].
  all: try (left; reflexivity).
  right. rewrite map_id_refreshed. repeat split.
  eexists. split; [reflexivity|].
  unfold is_transfer_success. cbn. apply prefix_nil.
Qed.

(** A transfer that goes through: the state has changed, and the form is
    cleared. *)
Lemma transfer_changes_state_only_on_success_witness :
  let W := responsive_world 1700000000500 400 in
  let l := [record_A 1%float] in
  let td := mkTransferData "1700000000000" address_B "0.5" in
  let s := mkStore l td "1" in
  store (snd (transferSOL W l td (start s))) <> s
  /\ transferData (store (snd (transferSOL W l td (start s)))) = empty_form.
Proof.
  intros W l td s.
  assert (Hchanged : store (snd (transferSOL W l td (start s))) <> s).
  { intro H. apply (f_equal (fun st => fromId (transferData st))) in H.
    vm_compute in H. discriminate H. }
  split; [exact Hchanged|].
  destruct (transfer_changes_state_only_on_success W l td s) as [Hsame|Hdone].
  - contradiction.
  - exact (proj1 (proj2 Hdone)).
Defined.

Lemma transfer_success_clears_form W l td s :
  existsb is_transfer_success (alerts (trace (snd (transferSOL W l td (start s)))))
  = true ->
  fst (transferSOL W l td (start s)) = Returned tt ->
  transferData (store (snd (transferSOL W l td (start s)))) = empty_form.
Proof.
  destruct td as [f t a]. run_handler.
  all: cbn [alerts app]; rewrite ?alerts_app, ?alerts_refresh_calls;
       cbn [alerts app existsb orb].
  all: try (unfold is_transfer_success; cbn; intro Hnone; discriminate Hnone).
  intros _ _. reflexivity.
Qed.

(** X18. Once the handler of a successful transfer has come back, its
    refresh done and the form cleared, a further click on Transfer does
    nothing but ask for the details: no address is parsed, no secret
    decoded and no ledger call made. *)
Theorem second_click_after_success_is_harmless W W' l td s :
  existsb is_transfer_success (alerts (trace (snd (transferSOL W l td (start s)))))
  = true ->
  fst (transferSOL W l td (start s)) = Returned tt ->
  let s' := store (snd (transferSOL W l td (start s))) in
  transferSOL W' (addresses s') (transferData s') (start s')
  = (Returned tt, mkRun s' [Alert "Please fill in all transfer details"]).
Proof.
  intros Hsuccess Hback. cbv zeta.
  rewrite (transfer_success_clears_form W l td s Hsuccess Hback).
  unfold transferSOL, try_catch, alert, emit. reflexivity.
Qed.

(** Two clicks on Transfer, the first one successful and back. *)
Lemma second_click_after_success_witness :
  let W := responsive_world 1700000000500 400 in
  let l := [record_A 1%float] in
  let td := mkTransferData "1700000000000" address_B "0.5" in
  let s := mkStore l td "1" in
  let s' := store (snd (transferSOL W l td (start s))) in
  transferSOL W (addresses s') (transferData s') (start s')
  = (Returned tt, mkRun s' [Alert "Please fill in all transfer details"]).
Proof.
  intros W l td s.
  apply (second_click_after_success_is_harmless W W l td s); reflexivity.
Defined.

(** X19. When the confirmation of the signature that was submitted is
    fulfilled before the timer fires and carries the on-chain error [err],
    a transfer that got as far as asking for it ends with the single alert
    that quotes [err], of kind LedgerRejectionError; the handler comes
    back, the state is as before and no balance lookup is made. *)
Theorem transfer_ledger_rejection W l td s ms err :
  (forall wire signature,
      connection_sendRawTransaction W wire = Ok signature ->
      connection_confirmTransaction W signature = SettlesAt ms (Ok (Some err))) ->
  (ms < 30000)%Z ->
  reaches_confirmation (trace (snd (transferSOL W l td (start s)))) ->
  fst (transferSOL W l td (start s)) = Returned tt
  /\ store (snd (transferSOL W l td (start s))) = s
  /\ existsb is_balance_lookup (trace (snd (transferSOL W l td (start s)))) = false
  /\ alerts (trace (snd (transferSOL W l td (start s))))
     = [("Transfer failed: Transaction failed: " ++ err)%string]
  /\ error_kind_of_alert ("Transfer failed: Transaction failed: " ++ err)
     = Some LedgerRejectionError.
Proof.
  intros Hrej Hms. unfold reaches_confirmation. destruct td as [f t a].
  run_handler.
  all: cbn [existsb is_confirm_call orb]; intro Hreach; try discriminate Hreach.
  all: match goal with
       | Hsent : connection_sendRawTransaction _ ?wire = Ok ?sig,
         H : connection_confirmTransaction _ ?sig = _ |- _ =>
           rewrite (Hrej wire sig Hsent) in H; try discriminate H;
           injection H as ? ?; subst
       end.
  all: try match goal with
           | H : (_ <? 30000)%Z = false |- _ => apply Z.ltb_ge in H; lia
           end.
  all: try discriminate.
  repeat split. exact (ledger_rejection_kind _).
Qed.

(** A transfer whose confirmation reports an on-chain error at once. *)
Lemma transfer_ledger_rejection_witness :
  let W := with_confirmation (responsive_world 1700000000500 400)
             (fun _ => SettlesAt 400 (Ok (Some (json_string "AccountInUse")))) in
  let l := [record_A 1%float] in
  let td := mkTransferData "1700000000000" address_B "0.5" in
  let s := mkStore l td "1" in
  fst (transferSOL W l td (start s)) = Returned tt
  /\ store (snd (transferSOL W l td (start s))) = s
  /\ existsb is_balance_lookup (trace (snd (transferSOL W l td (start s)))) = false
  /\ alerts (trace (snd (transferSOL W l td (start s))))
     = [("Transfer failed: Transaction failed: " ++ json_string "AccountInUse")%string]
  /\ error_kind_of_alert
       ("Transfer failed: Transaction failed: " ++ json_string "AccountInUse")
     = Some LedgerRejectionError.
Proof.
  intros W l td s.
  apply (transfer_ledger_rejection W l td s 400 (json_string "AccountInUse")).
  - intros wire signature _. reflexivity.
  - lia.
  - reflexivity.
Defined.

(** X20. A transfer asks the ledger for the blockhash, submits and asks
    for the confirmation in that order, each at most once: nothing is
    retried, and nothing is submitted without a blockhash fetched just
    before. *)
Theorem transfer_submits_at_most_once W l td s :
  submission_calls (trace (snd (transferSOL W l td (start s)))) = []
  \/ submission_calls (trace (snd (transferSOL W l td (start s)))) = [GetLatestBlockhash]
  \/ (exists wire,
         submission_calls (trace (snd (transferSOL W l td (start s))))
         = [GetLatestBlockhash; SendRawTransaction wire])
  \/ (exists wire signature,
         submission_calls (trace (snd (transferSOL W l td (start s))))
         = [GetLatestBlockhash; SendRawTransaction wire; ConfirmTransaction signature]).
Proof.
  assert (Hquiet : forall id0, submission_calls (refresh_calls W id0 l) = []).
  { intro id0. unfold submission_calls, refresh_calls.
    induction l as [|addr rest IH]; [reflexivity|].
    cbn [flat_map]. rewrite filter_app, IH, app_nil_r.
    destruct (id_eqb (id addr) id0); [|reflexivity].
    unfold getBalance_calls.
    destruct (PublicKey_of_text (publicKey addr)) as [bytes|e];
      [destruct (connection_getBalance W bytes)|]; reflexivity. }
  destruct td as [f t a]. run_handler.
  all: unfold submission_calls;
       repeat (rewrite filter_app
               || cbn [filter is_ledger_call is_balance_lookup andb negb app]).
  all: try match goal with
           | |- context [filter ?p (refresh_calls ?w ?i ?books)] =>
               change (filter p (refresh_calls w i books))
                 with (submission_calls (refresh_calls w i books));
               rewrite Hquiet
           end.
  all: cbn [app].
  all: first [ left; reflexivity
             | right; left; reflexivity
             | right; right; left; eexists; reflexivity
             | right; right; right; eexists; eexists; reflexivity ].
Qed.




Lemma transfer_builds_refresh_calls W id0 l : transfer_builds (refresh_calls W id0 l) = [].
Proof.
  unfold transfer_builds, refresh_calls.
  induction l as [|addr rest IH]; [reflexivity|].
  cbn [flat_map]. rewrite flat_map_app, IH, app_nil_r.
  destruct (id_eqb (id addr) id0); [|reflexivity].
  unfold getBalance_calls.
  destruct (PublicKey_of_text (publicKey addr)) as [bytes|e];
    [destruct (connection_getBalance W bytes)|]; reflexivity.
Qed.

(** X22. What a transfer builds is what it validated. It builds at most
    one transfer instruction, and when it builds one, the four checks have
    passed: the source record was found by the selected id text, the amount
    passed the balance check against that record's cached balance, the
    destination is the parsed destination text and lies on the curve. The
    instruction moves the amount times [LAMPORTS_PER_SOL] from the public
    key derived from the record's private key. *)
Theorem transfer_builds_what_was_validated W l td s :
  transfer_builds (trace (snd (transferSOL W l td (start s)))) = []
  \/ exists fromAddr secret keypair dest,
      passes_presence l td fromAddr
      /\ (parseFloat_balance (balance fromAddr)
          <? Number.parseFloat (amount td) + FEE_RESERVE)%float = false
      /\ PublicKey_of_text (Some (toPubkey td)) = Ok dest
      /\ PublicKey_isOnCurve W dest = true
      /\ bs58_decode_value (privateKey fromAddr) = Ok secret
      /\ Keypair_fromSecretKey W secret = Ok keypair
      /\ transfer_builds (trace (snd (transferSOL W l td (start s))))
         = [(kp_publicKey keypair, dest,
             (Number.parseFloat (amount td) * LAMPORTS_PER_SOL)%float)].
Proof.
  destruct td as [f t a]. unfold passes_presence, FEE_RESERVE.
  cbn [fromId toPubkey amount]. run_handler.
  all: unfold transfer_builds;
       repeat (rewrite flat_map_app || cbn [flat_map app]).
  all: try match goal with
           | |- context [flat_map ?g (refresh_calls ?w ?i ?books)] =>
               change (flat_map g (refresh_calls w i books))
                 with (transfer_builds (refresh_calls w i books));
               rewrite transfer_builds_refresh_calls
           end.
  all: cbn [app].
  all: try (left; reflexivity).
  all: right;
       repeat match goal with
              | H : (_ || _)%bool = false |- _ =>
                  apply orb_false_iff in H; destruct H
              | H : negb _ = false |- _ => apply negb_false_iff in H
              end;
       do 4 eexists; repeat split; try eassumption; reflexivity.
Qed.

(* ===================================================================== *)
(** * More on the import *)
(* ===================================================================== *)

Lemma merge_loaded_known entries prev :
  (forall addr, In addr entries -> In (publicKey addr) (map publicKey prev)) ->
  merge_loaded entries prev = prev.
Proof.
  intro Hknown. unfold merge_loaded.
  assert (Hnone : filter (fun addr =>
                            negb (Set_has (new_Set (map publicKey prev)) (publicKey addr)))
                         entries = []); [|rewrite Hnone; apply app_nil_r].
  induction entries as [|addr rest IH]; [reflexivity|].
  cbn [filter].
  assert (Hhas : Set_has (new_Set (map publicKey prev)) (publicKey addr) = true)
    by (apply existing_key_dec, Hknown; left; reflexivity).
  rewrite Hhas. cbn [negb]. apply IH. intros x Hx. apply Hknown. right. exact Hx.
Qed.

Lemma merge_loaded_new entries prev :
  (forall addr, In addr entries -> ~ In (publicKey addr) (map publicKey prev)) ->
  merge_loaded entries prev = prev ++ entries.
Proof.
  intro Hnew. unfold merge_loaded. f_equal.
  induction entries as [|addr rest IH]; [reflexivity|].
  cbn [filter].
  destruct (Set_has (new_Set (map publicKey prev)) (publicKey addr)) eqn:Hhas.
  - apply existing_key_dec in Hhas. exfalso. exact (Hnew addr (or_introl eq_refl) Hhas).
  - cbn [negb]. f_equal. apply IH. intros x Hx. apply Hnew. right. exact Hx.
Qed.

Lemma loadKeypairs_known_run entries s :
  forallb well_formed_entry entries = true ->
  (forall addr, In addr entries -> In (publicKey addr) (map publicKey (addresses s))) ->
  store (snd (loadKeypairs (ArrayOf entries) (start s))) = s
  /\ alerts (trace (snd (loadKeypairs (ArrayOf entries) (start s))))
     = ["Successfully loaded keypairs"].
Proof.
  intros Hok Hknown. rewrite (loadKeypairs_accept_run entries s Hok).
  cbn [snd store trace]. rewrite (merge_loaded_known _ _ Hknown).
  rewrite alerts_app, loop_calls_no_alert. destruct s; split; reflexivity.
Qed.

(** X23. A file that passes validation and holds only public keys the
    address book already has changes no record; the handler still shows
    the alert of success. *)
Theorem import_of_known_keys_adds_nothing entries s :
  forallb well_formed_entry entries = true ->
  (forall addr, In addr entries -> In (publicKey addr) (map publicKey (addresses s))) ->
  store (snd (loadKeypairs (ArrayOf entries) (start s))) = s
  /\ alerts (trace (snd (loadKeypairs (ArrayOf entries) (start s))))
     = ["Successfully loaded keypairs"].
Proof.
  intros Hok Hknown. rewrite (loadKeypairs_accept_run entries s Hok).
  cbn [snd store trace]. rewrite (merge_loaded_known _ _ Hknown).
  rewrite alerts_app, loop_calls_no_alert. destruct s; split; reflexivity.
Qed.

(** The import of a file that holds the one record of the book under
    another id. *)
Lemma import_of_known_keys_witness :
  let entry := mkRecord (Some 1700000000002%Z) (Some address_A) (Some secret_64)
                        (Some true) (Some 7%float) in
  let s := mkStore [record_A 1%float] empty_form "1" in
  store (snd (loadKeypairs (ArrayOf [entry]) (start s))) = s
  /\ alerts (trace (snd (loadKeypairs (ArrayOf [entry]) (start s))))
     = ["Successfully loaded keypairs"].
Proof.
  intros entry s.
  apply (import_of_known_keys_adds_nothing [entry] s eq_refl).
  intros addr [<-|[]]. left. reflexivity.
Defined.

(** X24. Importing the same valid file a second time adds nothing: after
    the first import every public key of the file is in the address
    book. *)
Theorem import_twice_is_import_once entries s :
  forallb well_formed_entry entries = true ->
  let s1 := store (snd (loadKeypairs (ArrayOf entries) (start s))) in
  store (snd (loadKeypairs (ArrayOf entries) (start s1))) = s1.
Proof.
  intro Hok. cbv zeta.
  apply (loadKeypairs_known_run entries _ Hok).
  rewrite (loadKeypairs_accept_run entries s Hok). cbn [snd store addresses].
  intros addr Hin. unfold merge_loaded. rewrite map_app, in_app_iff.
  destruct (Set_has (new_Set (map publicKey (addresses s))) (publicKey addr)) eqn:Hhas.
  - left. apply existing_key_dec. exact Hhas.
  - right. apply in_map. apply filter_In. rewrite Hhas. auto.
Qed.

(** Two imports of a file with one new and one known public key. *)
Lemma import_twice_witness :
  let fresh := mkRecord (Some 1700000000001%Z) (Some address_B) (Some secret_64)
                        (Some false) (Some 0%float) in
  let dup := mkRecord (Some 1700000000002%Z) (Some address_A) (Some secret_64)
                      (Some true) (Some 7%float) in
  let s := mkStore [record_A 1%float] empty_form "1" in
  let s1 := store (snd (loadKeypairs (ArrayOf [fresh; dup]) (start s))) in
  store (snd (loadKeypairs (ArrayOf [fresh; dup]) (start s1))) = s1.
Proof.
  intros fresh dup s.
  apply (import_twice_is_import_once [fresh; dup] s).
  reflexivity.
Defined.

(** X25. Public keys are compared with the address book only, not within
    the file: a valid file none of whose public keys is in the book is
    appended whole, repeated keys included. *)
Theorem import_keeps_repeats_within_file entries s :
  forallb well_formed_entry entries = true ->
  (forall addr, In addr entries -> ~ In (publicKey addr) (map publicKey (addresses s))) ->
  addresses (store (snd (loadKeypairs (ArrayOf entries) (start s))))
  = addresses s ++ entries.
Proof.
  intros Hok Hnew. rewrite (loadKeypairs_accept_run entries s Hok).
  cbn [snd store addresses]. apply merge_loaded_new. exact Hnew.
Qed.

(** A file that holds the same new public key twice. *)
Lemma import_keeps_repeats_witness :
  let one := mkRecord (Some 1700000000001%Z) (Some address_B) (Some secret_64)
                      (Some false) (Some 0%float) in
  let two := mkRecord (Some 1700000000002%Z) (Some address_B) (Some secret_64)
                      (Some false) (Some 0%float) in
  let s := mkStore [record_A 1%float] empty_form "1" in
  addresses (store (snd (loadKeypairs (ArrayOf [one; two]) (start s))))
  = [record_A 1%float; one; two].
Proof.
  intros one two s.
  apply (import_keeps_repeats_within_file [one; two] s eq_refl).
  intros addr [<-|[<-|[]]]; cbn; intros [H|[]]; discriminate H.
Defined.

Lemma first_defect_app good bad rest :
  forallb well_formed_entry good = true -> well_formed_entry bad = false ->
  first_defect (good ++ bad :: rest) = Some bad
  /\ loop_calls (good ++ bad :: rest) = loop_calls good ++ validation_calls bad.
Proof.
  intros Hgood Hbad. induction good as [|addr more IH]; cbn [app first_defect loop_calls].
  - rewrite Hbad, app_nil_r. split; reflexivity.
  - cbn in Hgood. apply andb_true_iff in Hgood. destruct Hgood as [Haddr Hmore].
    rewrite Haddr. destruct (IH Hmore) as [-> ->].
    split; [reflexivity|]. rewrite <- app_assoc. reflexivity.
Qed.

(** X26. The validation of a file stops at its first defective entry: the
    entries after it are not looked at, whatever they are, and the run is
    that of the file cut after the defective entry. *)
Theorem import_stops_at_first_defect good bad rest s :
  forallb well_formed_entry good = true ->
  well_formed_entry bad = false ->
  loadKeypairs (ArrayOf (good ++ bad :: rest)) (start s)
  = loadKeypairs (ArrayOf (good ++ [bad])) (start s).
Proof.
  intros Hgood Hbad. unfold loadKeypairs, try_catch.
  rewrite !bind_run, !forEach_validate_run.
  destruct (first_defect_app good bad rest Hgood Hbad) as [-> ->].
  destruct (first_defect_app good bad [] Hgood Hbad) as [-> ->].
  reflexivity.
Qed.

(** A file whose second entry lacks a private key, followed by one more
    entry. *)
Lemma import_stops_at_first_defect_witness :
  let good := mkRecord (Some 1700000000001%Z) (Some address_B) (Some secret_64)
                       (Some false) (Some 0%float) in
  let bad := mkRecord (Some 1700000000002%Z) (Some address_A) None None None in
  let s := mkStore [] empty_form "1" in
  loadKeypairs (ArrayOf ([good] ++ bad :: [good; good])) (start s)
  = loadKeypairs (ArrayOf ([good] ++ [bad])) (start s).
Proof.
  intros good bad s.
  apply (import_stops_at_first_defect [good] bad [good; good] s); reflexivity.
Defined.

Lemma loadKeypairs_array_run entries s :
  loadKeypairs (ArrayOf entries) (start s)
  = match first_defect entries with
    | None =>
        (Returned tt,
         mkRun (mkStore (merge_loaded entries (addresses s)) (transferData s)
                        (faucetAmount s))
               (loop_calls entries ++ [Alert "Successfully loaded keypairs"]))
    | Some addr =>
        (Returned tt,
         mkRun s (loop_calls entries
                  ++ [ConsoleError ("Error loading keypairs: "
                                    ++ message (validation_error addr));
                      Alert ("Failed to load keypairs: "
                             ++ message (validation_error addr))]))
    end.
Proof.
  unfold loadKeypairs, try_catch.
  rewrite bind_run, forEach_validate_run.
  destruct (first_defect entries) as [addr|]; [|reflexivity].
  cbv beta iota. unfold bind, alert, emit. cbn [store trace start app].
  rewrite <- app_assoc. reflexivity.
Qed.

Lemma loadKeypairs_null_run before type_error s :
  loadKeypairs (ArrayWithNull before type_error) (start s)
  = let e := match first_defect before with
             | Some addr => validation_error addr
             | None => mkError type_error
             end in
    (Returned tt,
     mkRun s (loop_calls before
              ++ [ConsoleError ("Error loading keypairs: " ++ message e);
                  Alert ("Failed to load keypairs: " ++ message e)])).
Proof.
  unfold loadKeypairs, try_catch.
  rewrite bind_run, forEach_validate_run.
  destruct (first_defect before) as [addr|];
    cbv beta iota zeta; unfold bind, alert, emit, throw;
    cbn [store trace start app]; rewrite <- app_assoc; reflexivity.
Qed.

Lemma validation_error_texts addr :
  message (validation_error addr) = "Invalid keypair format"
  \/ message (validation_error addr) = "Invalid public key format"
  \/ message (validation_error addr) = "Invalid private key format".
Proof.
  unfold validation_error.
  destruct (fields_present addr); [destruct (address_syntax_ok addr)|]; cbn; auto.
Qed.

(** X27. The import of a file returns and shows exactly one alert. For an
    array without a [null] element it is one of four: the one of success,
    or a failure for the format of a keypair, of a public key or of a
    private key; a private key of a wrong length is reported as a wrong
    format, and the message about the length is never shown. For an array
    with a [null] element it is one of these three failures, for an element
    before the [null] one, or the failure that carries the TypeError of the
    engine. For a file that is no array it is the failure that carries the
    error of [JSON.parse] or the one about the file format. *)
Theorem import_shows_one_alert payload s :
  fst (loadKeypairs payload (start s)) = Returned tt
  /\ exists text,
      alerts (trace (snd (loadKeypairs payload (start s)))) = [text]
      /\ match payload with
         | NotJson syntax_error =>
             text = ("Failed to load keypairs: " ++ syntax_error)%string
         | NotArray =>
             text = "Failed to load keypairs: Invalid file format: expected an array of keypairs"
         | ArrayOf _ =>
             text = "Successfully loaded keypairs"
             \/ text = "Failed to load keypairs: Invalid keypair format"
             \/ text = "Failed to load keypairs: Invalid public key format"
             \/ text = "Failed to load keypairs: Invalid private key format"
         | ArrayWithNull _ type_error =>
             text = ("Failed to load keypairs: " ++ type_error)%string
             \/ text = "Failed to load keypairs: Invalid keypair format"
             \/ text = "Failed to load keypairs: Invalid public key format"
             \/ text = "Failed to load keypairs: Invalid private key format"
         end.
Proof.
  destruct payload as [msg| |entries|before type_error].
  - split; [reflexivity|]. eexists. split; reflexivity.
  - split; [reflexivity|]. eexists. split; reflexivity.
  - rewrite loadKeypairs_array_run.
    destruct (first_defect entries) as [addr|]; cbn [fst snd trace];
      (split; [reflexivity|]); rewrite alerts_app, loop_calls_no_alert;
      cbn [alerts app]; eexists; (split; [reflexivity|]); [|auto].
    right. destruct (validation_error_texts addr) as [->|[->| ->]]; auto.
  - rewrite loadKeypairs_null_run. cbv zeta. cbn [fst snd trace].
    split; [reflexivity|]. rewrite alerts_app, loop_calls_no_alert.
    cbn [alerts app]. eexists. split; [reflexivity|].
    destruct (first_defect before) as [addr|]; [|left; reflexivity].
    right. destruct (validation_error_texts addr) as [->|[->| ->]]; auto.
Qed.

Lemma loop_calls_local entries :
  forallb (fun e => negb (is_ledger_call e)) (loop_calls entries) = true.
Proof.
  induction entries as [|addr rest IH]; [reflexivity|].
  cbn [loop_calls]. rewrite forallb_app. unfold validation_calls.
  destruct (fields_present addr); [destruct (address_syntax_ok addr)|];
    destruct (well_formed_entry addr); cbn; try reflexivity; exact IH.
Qed.

(** X28. Loading a file, whatever it holds, makes no ledger call and
    derives no keypair, returns without throwing, and leaves the transfer
    form and the faucet amount as they were. *)
Theorem import_is_local payload s :
  no_ledger_call (trace (snd (loadKeypairs payload (start s))))
  /\ existsb is_derivation_call (trace (snd (loadKeypairs payload (start s)))) = false
  /\ fst (loadKeypairs payload (start s)) = Returned tt
  /\ transferData (store (snd (loadKeypairs payload (start s)))) = transferData s
  /\ faucetAmount (store (snd (loadKeypairs payload (start s)))) = faucetAmount s.
Proof.
  unfold no_ledger_call.
  destruct payload as [msg| |entries|before type_error];
    try (repeat split; reflexivity).
  - rewrite loadKeypairs_array_run.
    destruct (first_defect entries) as [addr|];
      cbn [fst snd store trace transferData faucetAmount];
      rewrite forallb_app, existsb_app, loop_calls_local, loop_calls_no_derivation;
      repeat split.
  - rewrite loadKeypairs_null_run. cbv zeta.
    cbn [fst snd store trace transferData faucetAmount].
    rewrite forallb_app, existsb_app, loop_calls_local, loop_calls_no_derivation.
    repeat split.
Qed.

(* ===================================================================== *)
(** * The fields the handlers rely on *)
(* ===================================================================== *)

Lemma transferSOL_addresses W td s :
  addresses (store (snd (transferSOL W (addresses s) td (start s)))) = addresses s
  \/ exists id0,
      addresses (store (snd (transferSOL W (addresses s) td (start s))))
      = map (refreshed W id0) (addresses s).
Proof.
  destruct td as [f t a]. run_handler.
  all: cbn [addresses]; try (left; reflexivity).
  right. eexists. reflexivity.
Qed.

Lemma requestAirdrop_addresses W text id0 s :
  addresses (store (snd (requestAirdrop W (addresses s) text id0 (start s))))
  = addresses s
  \/ addresses (store (snd (requestAirdrop W (addresses s) text id0 (start s))))
     = map (refreshed W id0) (addresses s).
Proof.
  run_handler.
  all: cbn [addresses]; try (left; reflexivity).
  right. reflexivity.
Qed.

Lemma refreshed_key_fields W id0 l :
  Forall has_key_fields l -> Forall has_key_fields (map (refreshed W id0) l).
Proof.
  intro H. rewrite Forall_map. eapply Forall_impl; [|exact H].
  intros addr Hf. unfold refreshed. destruct (id_eqb (id addr) id0); exact Hf.
Qed.

Lemma well_formed_entry_key_fields addr :
  well_formed_entry addr = true -> has_key_fields addr.
Proof.
  unfold well_formed_entry, fields_present, has_key_fields. intro H.
  apply andb_true_iff in H. destruct H as [H _].
  apply andb_true_iff in H. destruct H as [H _].
  apply andb_true_iff in H. destruct H as [H Hid].
  apply andb_true_iff in H. destruct H as [Hpk Hsk].
  repeat split; intro Hnone; rewrite Hnone in *; discriminate.
Qed.

Lemma step_keeps_key_fields s wa :
  Forall has_key_fields (addresses s) ->
  Forall has_key_fields (addresses (step s wa)).
Proof.
  destruct wa as [W a]. unfold step, handle. cbn [fst snd]. intro Hall.
  destruct a as [|id0|id0|id0|id0| |payload|td|text]; cbn [start store].
  - cbn. apply Forall_app. split; [exact Hall|].
    repeat constructor; discriminate.
  - cbn. rewrite Forall_forall in *. intros x Hx. apply Hall.
    apply filter_In in Hx. tauto.
  - cbn. rewrite Forall_map. eapply Forall_impl; [|exact Hall].
    intros addr Hf. destruct (id_eqb (id addr) id0); exact Hf.
  - rewrite refreshBalance_run. cbn. apply refreshed_key_fields. exact Hall.
  - destruct (requestAirdrop_addresses W (faucetAmount s) id0 s) as [-> | ->];
      [exact Hall|apply refreshed_key_fields; exact Hall].
  - destruct (transferSOL_addresses W (transferData s) s) as [-> | [id0 ->]];
      [exact Hall|apply refreshed_key_fields; exact Hall].
  - rewrite loadKeypairs_addresses. apply Forall_app. split; [exact Hall|].
    rewrite Forall_forall. intros x Hx. apply well_formed_entry_key_fields.
    exact (appended_by_import_well_formed s payload x Hx).
  - exact Hall.
  - exact Hall.
Qed.

(** X29. Whatever the user does and whatever the world answers, an
    address book whose records all have an id, a public key and a private
    key stays so: creation sets the three, import only lets entries with
    the three through, and no handler removes a field. *)
Theorem records_keep_their_key_fields s l :
  Forall has_key_fields (addresses s) ->
  Forall has_key_fields (addresses (run_actions s l)).
Proof.
  revert s. induction l as [|wa rest IH]; intros s Hall; [exact Hall|].
  cbn [run_actions fold_left]. apply IH. apply step_keeps_key_fields. exact Hall.
Qed.

(** From the empty book: a creation, an import, a refresh and a
    transfer. *)
Lemma records_keep_their_key_fields_witness :
  let W := responsive_world 1700000000000 400 in
  let entry := mkRecord (Some 1700000000001%Z) (Some address_B) (Some secret_64)
                        None None in
  let l := [(W, ClickCreate);
            (W, ChooseFile (ArrayOf [entry]));
            (W, ClickRefresh (Some 1700000000001%Z));
            (W, EditTransfer (mkTransferData "1700000000001" address_A "0.5"));
            (W, ClickTransfer)] in
  Forall has_key_fields (addresses (run_actions (mkStore [] empty_form "1") l)).
Proof.
  intros W entry l.
  apply (records_keep_their_key_fields (mkStore [] empty_form "1") l).
  constructor.
Defined.

(* ===================================================================== *)
(** * Editing the transfer form *)
(* ===================================================================== *)

(** X30. Edits of two different inputs of the transfer form can be made in
    either order with the same result, and neither touches the address
    book, the faucet amount or the trace. *)
Theorem form_edits_of_different_inputs_commute name1 value1 name2 value2 (r : Run) :
  name1 <> name2 ->
  snd (handleTransferChange name2 value2 (snd (handleTransferChange name1 value1 r)))
  = snd (handleTransferChange name1 value1 (snd (handleTransferChange name2 value2 r)))
  /\ addresses (store (snd (handleTransferChange name1 value1 r))) = addresses (store r)
  /\ faucetAmount (store (snd (handleTransferChange name1 value1 r)))
     = faucetAmount (store r)
  /\ trace (snd (handleTransferChange name1 value1 r)) = trace r.
Proof.
  intro Hdiff. unfold handleTransferChange, setTransferData.
  cbn [snd store trace addresses faucetAmount transferData].
  repeat split.
  destruct (transferData (store r)) as [f t a]. cbn [fromId toPubkey amount].
  destruct (String.eqb name1 "fromId") eqn:F1;
    destruct (String.eqb name1 "toPubkey") eqn:T1;
    destruct (String.eqb name1 "amount") eqn:A1;
    destruct (String.eqb name2 "fromId") eqn:F2;
    destruct (String.eqb name2 "toPubkey") eqn:T2;
    destruct (String.eqb name2 "amount") eqn:A2;
    cbn [fromId toPubkey amount]; try reflexivity;
    exfalso; apply Hdiff;
    repeat match goal with
           | H : String.eqb _ _ = true |- _ => apply String.eqb_eq in H
           end;
    congruence.
Qed.

(** The destination typed before the amount, or after it. *)
Lemma form_edits_commute_witness :
  let r := start (mkStore [record_A 1%float] empty_form "1") in
  snd (handleTransferChange "amount" "0.5"
         (snd (handleTransferChange "toPubkey" address_B r)))
  = snd (handleTransferChange "toPubkey" address_B
           (snd (handleTransferChange "amount" "0.5" r))).
Proof.
  intro r.
  apply (proj1 (form_edits_of_different_inputs_commute
                  "toPubkey" address_B "amount" "0.5" r ltac:(discriminate))).
Defined.
